(** * ChromosomePatch: cell registry, chromosome candidates and assignment

    A shallow embedding of [FISH_segmentation/Application_Qt/ChromosomePatch.py]
    and the properties of its [Cell] / [ChromosomeCellDetector] classes.

    Conventions of the embedding:
    - a [uint8] sample is a [Z] in [0, 256); arithmetic that numpy performs in
      [uint8] has its wrap-around written out ([Z.modulo _ 256]);
    - an image is a nested list, rows of columns of channels, as numpy indexes it;
    - Python exceptions are the [Raised] outcome of a state-and-error monad whose
      state is the detector object (its [cells] list and the two class-level
      counters);
    - the YOLO model, [cv2.GaussianBlur], [cv2.resize], [cv2.findContours] and
      [cv2.pointPolygonTest] are parameters of the section that calls them;
      thresholding, the morphological gradient, region labelling and the
      centre of mass are small executable models of the library routines;
    - the value a float comparison is made on is an IEEE-754 [spec_float], so
      that NaN is covered; the [float32] arithmetic of [rgba2rgb] is carried
      out on [Q] with the rounding of single precision after every operation;
      the centre of mass and the sharpening are exact quotients on [Q];
    - a [numpy.ma] mask is an array of booleans or the scalar [nomask] that
      numpy puts in the place of a mask without a [True]. *)

From Stdlib Require Import ZArith QArith Qround Qabs Qpower Floats.SpecFloat.
From Stdlib Require Import String List Lia Lqa Sorted.
From stdpp Require Import base list strings relations.

Open Scope Z_scope.

(** ** Outcomes, exceptions and the detector monad *)

Inductive exn : Type :=
  | AttributeError
  | IndexError
  | ValueError
  | KeyError
  | AssertionError (msg : string)
  | cv2_error.

Inductive outcome (S A : Type) : Type :=
  | Returned (a : A) (s : S)
  | Raised (e : exn) (s : S).
Arguments Returned {S A} a s.
Arguments Raised {S A} e s.

Definition M (S A : Type) : Type := S -> outcome S A.

#[global] Instance M_ret {S} : MRet (M S) := fun A a s => Returned a s.
#[global] Instance M_bind {S} : MBind (M S) := fun A B f m s =>
  match m s with
  | Returned a s' => f a s'
  | Raised e s' => Raised e s'
  end.

Definition raise {S A} (e : exn) : M S A := fun s => Raised e s.
Definition gets {S A} (f : S -> A) : M S A := fun s => Returned (f s) s.
Definition modify {S} (f : S -> S) : M S unit := fun s => Returned tt (f s).

Definition final_state {S A} (o : outcome S A) : S :=
  match o with Returned _ s => s | Raised _ s => s end.

(** ** Arrays *)

(** [np.ndarray] of dtype [uint8] with shape (rows, cols, channels). *)
Definition Image : Type := list (list (list Z)).
(** A two-dimensional array, e.g. one channel of an image. *)
Definition Plane (A : Type) : Type := list (list A).

Definition is_uint8 (v : Z) : Prop := 0 <= v < 256.
Definition uint8_image (img : Image) : Prop :=
  Forall (Forall (Forall is_uint8)) img.

(** [a[..., k]] *)
Definition channel {A} (d : A) (k : nat) (a : list (list (list A))) : Plane A :=
  map (map (fun px => nth k px d)) a.

Definition map2d {A B} (f : A -> B) (a : Plane A) : Plane B := map (map f) a.
Definition map3d {A B} (f : A -> B) (a : list (Plane A)) : list (Plane B) :=
  map (map2d f) a.

(** [a.shape] for a three-dimensional array. *)
Definition shape3 {A} (a : list (list (list A))) : nat * nat * nat :=
  (length a, length (hd [] a), length (hd [] (hd [] a))).

(** ** class Cell *)

Inductive CellType : Type := EXPLODED | WHOLE.

Definition CellType_value (t : CellType) : Z :=
  match t with EXPLODED => 0 | WHOLE => 1 end.

(** [Cell.CellType(v)]: the member whose value is [v]; [ValueError] otherwise. *)
Definition CellType_of_value {S} (v : Z) : M S CellType :=
  if v =? 0 then mret EXPLODED
  else if v =? 1 then mret WHOLE
  else raise ValueError.

(** The mask of a masked array: a boolean array of the shape of the data,
    [true] where the sample is masked out, or the scalar [np.ma.nomask] when
    no sample is masked out. *)
Inductive Mask : Type :=
  | nomask
  | mask_array (m : list (list (list bool))).

(** [np.ma.MaskedArray]: the image data and its mask. *)
Record MaskedArray : Type := {
  data : Image;
  mask : Mask
}.

(** A chromosome point is a row of the candidate array: [[row, col]]. *)
Definition Point : Type := list Q.

Record Cell : Type := {
  masked_area : MaskedArray;
  cell_type : CellType;
  red_chromosomes : list Point;
  green_chromosomes : list Point
}.

(** [Cell.__init__] *)
Definition Cell_init (masked_area : MaskedArray) (cell_type : CellType) : Cell :=
  {| masked_area := masked_area; cell_type := cell_type;
     red_chromosomes := []; green_chromosomes := [] |}.

Definition add_red_chromosome (red_chromosome : Point) (c : Cell) : Cell :=
  {| masked_area := masked_area c; cell_type := cell_type c;
     red_chromosomes := red_chromosomes c ++ [red_chromosome];
     green_chromosomes := green_chromosomes c |}.

Definition add_green_chromosome (green_chromosome : Point) (c : Cell) : Cell :=
  {| masked_area := masked_area c; cell_type := cell_type c;
     red_chromosomes := red_chromosomes c;
     green_chromosomes := green_chromosomes c ++ [green_chromosome] |}.

(** ** class ChromosomeCellDetector *)

(** The detector object together with the two class attributes
    [RedChromosome] and [GreenChromosome]. *)
Record Detector : Type := {
  image : Image;
  cells : list Cell;
  RedChromosome : Z;
  GreenChromosome : Z
}.

Definition set_cells (f : list Cell -> list Cell) (d : Detector) : Detector :=
  {| image := image d; cells := f (cells d);
     RedChromosome := RedChromosome d; GreenChromosome := GreenChromosome d |}.

Definition set_RedChromosome (f : Z -> Z) (d : Detector) : Detector :=
  {| image := image d; cells := cells d;
     RedChromosome := f (RedChromosome d); GreenChromosome := GreenChromosome d |}.

Definition set_GreenChromosome (f : Z -> Z) (d : Detector) : Detector :=
  {| image := image d; cells := cells d;
     RedChromosome := RedChromosome d; GreenChromosome := f (GreenChromosome d) |}.

(** [ChromosomeCellDetector.__init__] *)
Definition Detector_init (img : Image) (red green : Z) : Detector :=
  {| image := img; cells := []; RedChromosome := red; GreenChromosome := green |}.

(** The float constants of the source, as binary64 values. *)
Definition float_0 : spec_float := S754_zero false.
Definition float_1 : spec_float := S754_finite false 4503599627370496 (-52).

(** ** The chromosome assigner: [__filter_chromosomes] *)

Section Assigner.
(** A contour as OpenCV returns it. *)
Variable Contour : Type.
(** [imutils.grab_contours(cv2.findContours(mask, RETR_TREE, CHAIN_APPROX_NONE))]:
    the contours found, or [None] when OpenCV raises. *)
Variable findContours : Plane Z -> option (list Contour).
(** [cv2.pointPolygonTest(contour, pt, measureDist=True)] *)
Variable pointPolygonTest : Contour -> Point -> spec_float.

(** [np.invert(m[..., 0]).astype(np.uint8)] for a mask array [m]. *)
Definition inverted_channel (m : list (list (list bool))) : Plane Z :=
  map2d (fun b : bool => if negb b then 1 else 0) (channel false 0 m).

(** [np.invert(cell.masked_area.mask[..., 0]).astype(np.uint8)]; the scalar
    [nomask] cannot be indexed by [..., 0]. *)
Definition cell_mask {S} (cell : Cell) : M S (Plane Z) :=
  match mask (masked_area cell) with
  | nomask => raise IndexError
  | mask_array m => mret (inverted_channel m)
  end.

(** [imutils.grab_contours(cv2.findContours(...))[0]] *)
Definition first_contour {S} (m : Plane Z) : M S Contour :=
  match findContours m with
  | None => raise cv2_error
  | Some [] => raise IndexError
  | Some (contour :: _) => mret contour
  end.

Definition update_cell (j : nat) (f : Cell -> Cell) : M Detector unit :=
  modify (set_cells (fun cs => alter f j cs)).

(** The body of [for cell in self.cells], for the cells at the indices [js];
    the result is the [accepted] array when the loop ends or breaks. *)
Fixpoint scan_cells (idx : nat) (candidate : Point) (chromosome_type : string)
    (closeness : spec_float) (accepted : list bool) (js : list nat)
    : M Detector (list bool) :=
  match js with
  | [] => mret accepted
  | j :: js' =>
    cs ← gets cells;
    match cs !! j with
    | None => mret accepted
    | Some cell =>
      mask ← cell_mask cell;
      contour ← first_contour mask;
      let distance := pointPolygonTest contour (rev candidate) in
      let inside_cell := SFltb float_0 distance in
      let almost_on_cell_border := SFleb distance closeness in
      match accepted !! idx with
      | None => raise IndexError
      | Some acc =>
        if negb acc && inside_cell && negb almost_on_cell_border then
          let accepted' := <[idx := true]> accepted in
          (if String.eqb chromosome_type "red" then
             update_cell j (add_red_chromosome candidate);;
             modify (set_RedChromosome (fun n => n + 1))
           else if String.eqb chromosome_type "green" then
             update_cell j (add_green_chromosome candidate);;
             modify (set_GreenChromosome (fun n => n + 1))
           else mret tt);;
          mret accepted'
        else scan_cells idx candidate chromosome_type closeness accepted js'
      end
    end
  end.

(** [for idx, candidate in enumerate(chromosome_candidates)] *)
Fixpoint filter_loop (chromosome_type : string) (closeness : spec_float)
    (candidates : list (nat * Point)) (accepted : list bool)
    : M Detector (list bool) :=
  match candidates with
  | [] => mret accepted
  | (idx, candidate) :: rest =>
    cs ← gets cells;
    accepted' ← scan_cells idx candidate chromosome_type closeness accepted
                  (seq 0 (length cs));
    filter_loop chromosome_type closeness rest accepted'
  end.

Definition enumerate {A} (l : list A) : list (nat * A) :=
  combine (seq 0 (length l)) l.

(** [__filter_chromosomes], returning the final value of its local
    [accepted] array. *)
Definition filter_chromosomes_accepted (chromosome_candidates : list Point)
    (chromosome_type : string) (closeness : spec_float)
    : M Detector (list bool) :=
  filter_loop chromosome_type closeness (enumerate chromosome_candidates)
    (replicate (length chromosome_candidates) false).

(** [__filter_chromosomes] *)
Definition filter_chromosomes (chromosome_candidates : list Point)
    (chromosome_type : string) (closeness : spec_float) : M Detector unit :=
  filter_chromosomes_accepted chromosome_candidates chromosome_type closeness;;
  mret tt.

End Assigner.

(** ** Unsharp masking: [__unsharp_mask] *)

Definition zip_with3d {A B C} (f : A -> B -> C)
    (a : list (Plane A)) (b : list (Plane B)) : list (Plane C) :=
  zip_with (zip_with (zip_with f)) a b.

Definition Qmaximum (x y : Q) : Q := if Qle_bool x y then y else x.
Definition Qminimum (x y : Q) : Q := if Qle_bool x y then x else y.

(** [ndarray.round()]: to the nearest integer, ties to the even one. *)
Definition round_half_even (x : Q) : Z :=
  let f := Qfloor x in
  match (x - inject_Z f ?= 1 # 2)%Q with
  | Lt => f
  | Gt => f + 1
  | Eq => if Z.even f then f else f + 1
  end.

(** [.astype(np.uint8)] of an integral value. *)
Definition astype_uint8 (v : Z) : Z := v mod 256.

(** [a - b] on [uint8] operands. *)
Definition uint8_sub (a b : Z) : Z := (a - b) mod 256.

(** One sample of
    [float(amount + 1) * image - float(amount) * blurred], clamped to
    [0, 255], rounded and cast. The products and the difference are taken
    exactly; for the integral [amount] that [detect_chromosomes] passes the
    binary64 computation is exact as well. *)
Definition sharpen_sample (amount : Q) (image blurred : Z) : Z :=
  let sharpened := ((amount + 1) * inject_Z image - amount * inject_Z blurred)%Q in
  let sharpened := Qmaximum sharpened 0 in
  let sharpened := Qminimum sharpened 255 in
  astype_uint8 (round_half_even sharpened).

(** One sample of [np.absolute(image - blurred) < threshold]; the operands
    are [uint8] arrays, so the difference is a [uint8]. *)
Definition low_contrast_sample (threshold : Z) (image blurred : Z) : bool :=
  Z.abs (uint8_sub image blurred) <? threshold.

(** [np.copyto(dst, src, where=mask)] *)
Definition copyto (dst src : Image) (where_ : list (Plane bool)) : Image :=
  zip_with (zip_with (zip_with (fun (ds : Z * Z) (w : bool) =>
                                  if w then snd ds else fst ds)))
    (zip_with3d pair dst src) where_.

Section UnsharpMask.
(** [cv2.GaussianBlur(image, kernel_size, sigma)]: a [uint8] image of the
    shape of [image]. *)
Variable GaussianBlur : Image -> nat * nat -> Q -> Image.

Definition unsharp_mask (image : Image) (kernel_size : nat * nat) (sigma : Q)
    (amount : Q) (threshold : Z) : Image :=
  let blurred := GaussianBlur image kernel_size sigma in
  let sharpened := zip_with3d (sharpen_sample amount) image blurred in
  if 0 <? threshold then
    let low_contrast_mask :=
      zip_with3d (low_contrast_sample threshold) image blurred in
    copyto sharpened image low_contrast_mask
  else sharpened.
End UnsharpMask.

(** ** Candidate extraction: [__get_chromosome_candidates] *)

Definition at2 {A} (a : Plane A) (r c : Z) : option A :=
  if (0 <=? r) && (0 <=? c)
  then a !! Z.to_nat r ≫= (fun row => row !! Z.to_nat c)
  else None.

Definition imap2d {A B} (f : nat -> nat -> A -> B) (a : Plane A) : Plane B :=
  imap (fun r row => imap (fun c v => f r c v) row) a.

(** [cv2.threshold(src, thresh, maxval, cv2.THRESH_BINARY)[1]] *)
Definition cv2_threshold (src : Plane Z) (thresh maxval : Z) : Plane Z :=
  map2d (fun v => if thresh <? v then maxval else 0) src.

(** [cv2.getStructuringElement(cv2.MORPH_RECT, (3, 3))], as the offsets of its
    cells from the anchor at the centre. *)
Definition MORPH_RECT_3x3 : list (Z * Z) :=
  [(-1, -1); (-1, 0); (-1, 1); (0, -1); (0, 0); (0, 1); (1, -1); (1, 0); (1, 1)].

(** The samples under the structuring element anchored at (r, c); positions
    outside the array do not take part (OpenCV's default morphology border). *)
Definition window (kernel : list (Z * Z)) (a : Plane Z) (r c : nat) : list Z :=
  omap (fun '(dr, dc) => at2 a (Z.of_nat r + dr) (Z.of_nat c + dc)) kernel.

Definition dilate (kernel : list (Z * Z)) (a : Plane Z) : Plane Z :=
  imap2d (fun r c v => foldr Z.max v (window kernel a r c)) a.

Definition erode (kernel : list (Z * Z)) (a : Plane Z) : Plane Z :=
  imap2d (fun r c v => foldr Z.min v (window kernel a r c)) a.

(** [cv2.morphologyEx(src, cv2.MORPH_GRADIENT, kernel)]: dilation minus
    erosion, a saturating [uint8] difference. *)
Definition morphologyEx_gradient (src : Plane Z) (kernel : list (Z * Z)) : Plane Z :=
  zip_with (zip_with (fun d e => Z.max 0 (d - e))) (dilate kernel src) (erode kernel src).

(** Neighbour offsets of [skimage.measure.label]: [connectivity=1] joins the
    four orthogonal neighbours, [connectivity=2] the diagonal ones too. *)
Definition neighbours (connectivity : nat) : list (Z * Z) :=
  match connectivity with
  | 1%nat => [(-1, 0); (0, -1); (0, 1); (1, 0)]
  | _ => [(-1, -1); (-1, 0); (-1, 1); (0, -1); (0, 1); (1, -1); (1, 0); (1, 1)]
  end.

Definition raster_id (width r c : nat) : nat := S (r * width + c).

Definition label_init (a : Plane Z) (background : Z) : Plane nat :=
  imap2d (fun r c v => if v =? background then 0%nat
                       else raster_id (length (hd [] a)) r c) a.

(** The identifiers of the neighbours of (r, c) that carry its value [v]. *)
Definition neighbour_ids (connectivity : nat) (a : Plane Z) (ids : Plane nat)
    (r c : nat) (v : Z) : list nat :=
  omap (fun '(dr, dc) =>
          let r' := Z.of_nat r + dr in
          let c' := Z.of_nat c + dc in
          match at2 a r' c', at2 ids r' c' with
          | Some v', Some i => if v' =? v then Some i else None
          | _, _ => None
          end) (neighbours connectivity).

(** One round of propagation: a foreground pixel takes the least identifier
    among its own and those of the neighbours that carry its value. *)
Definition label_step (connectivity : nat) (a : Plane Z) (background : Z)
    (ids : Plane nat) : Plane nat :=
  imap2d (fun r c v =>
    if v =? background then 0%nat
    else foldr Nat.min (default 0%nat (at2 ids (Z.of_nat r) (Z.of_nat c)))
           (neighbour_ids connectivity a ids r c v)) a.

Definition enumerate2d {A} (a : Plane A) : list (nat * nat * A) :=
  concat (imap (fun r row => imap (fun c v => (r, c, v)) row) a).

(** The identifiers that survive on their own pixel, one per region, in
    raster order of the first pixel of the region. *)
Definition label_roots (width : nat) (ids : Plane nat) : list nat :=
  omap (fun '(r, c, i) =>
          if decide (i = raster_id width r c) then Some i else None)
       (enumerate2d ids).

(** The sum of all identifiers: it bounds the number of rounds. *)
Definition ids_total (ids : Plane nat) : nat := sum_list_with sum_list ids.

(** Propagation until nothing changes. *)
Fixpoint label_settle (fuel : nat) (connectivity : nat) (a : Plane Z)
    (background : Z) (ids : Plane nat) : Plane nat :=
  match fuel with
  | O => ids
  | S fuel' =>
    let ids' := label_step connectivity a background ids in
    if decide (ids' = ids) then ids
    else label_settle fuel' connectivity a background ids'
  end.

(** The label of the region whose surviving identifier is [i]. *)
Definition label_of (roots : list nat) (i : nat) : Z :=
  if decide (i = 0%nat) then 0
  else match list_find (fun x => x = i) roots with
       | Some (n, _) => Z.of_nat (S n)
       | None => 0
       end.

(** [skimage.measure.label(a, background=background, return_num=True,
    connectivity=connectivity)]: regions of neighbouring pixels of equal,
    non-background value, numbered from 1 in raster order. *)
Definition skimage_label (a : Plane Z) (background : Z) (connectivity : nat)
    : Plane Z * nat :=
  let ids0 := label_init a background in
  let ids := label_settle (S (ids_total ids0)) connectivity a background ids0 in
  let roots := label_roots (length (hd [] a)) ids in
  (map2d (label_of roots) ids, length roots).

(** The samples of [input] on the pixels that [labels] gives the label [k],
    with their coordinates. *)
Definition region (input labels : Plane Z) (k : Z) : list (nat * nat * Z) :=
  omap (fun '(r, c, l) =>
          if l =? k
          then Some (r, c, default 0 (at2 input (Z.of_nat r) (Z.of_nat c)))
          else None)
       (enumerate2d labels).

Definition Qsum (l : list Q) : Q := foldr Qplus 0%Q l.

(** The centre of mass of the region labelled [k], weighted by [input]:
    (row, col); the quotients are exact and kept in lowest terms. *)
Definition centroid (input labels : Plane Z) (k : Z) : Point :=
  let reg := region input labels k in
  let normalizer := Qsum (map (fun '(_, _, w) => inject_Z w) reg) in
  [ Qred (Qsum (map (fun '(r, _, w) => inject_Z w * inject_Z (Z.of_nat r)) reg)
            / normalizer)%Q;
    Qred (Qsum (map (fun '(_, c, w) => inject_Z w * inject_Z (Z.of_nat c)) reg)
            / normalizer)%Q ].

(** [scipy.ndimage.center_of_mass(input, labels, index)]: one centre per
    entry of [index]. *)
Definition center_of_mass (input labels : Plane Z) (index : list Z) : list Point :=
  map (centroid input labels) index.

(** [range(1, n + 1)] *)
Definition range_1 (n : nat) : list Z := map Z.of_nat (seq 1 n).

(** [image] is a non-empty array: OpenCV refuses an empty one, and the
    statements about the extractor are made for non-empty images. *)
Definition get_chromosome_candidates (image : Plane Z) : list Point :=
  let kernel := MORPH_RECT_3x3 in
  let thresh := cv2_threshold image 100 255 in
  let morph := morphologyEx_gradient thresh kernel in
  let '(labels, num_labels) := skimage_label morph 0 1 in
  let points := center_of_mass labels labels (range_1 num_labels) in
  points.

(** ** Monadic loops *)

(** [for x in xs: body(x)] *)
Fixpoint for_each {S A} (xs : list A) (body : A -> M S unit) : M S unit :=
  match xs with
  | [] => mret tt
  | x :: xs' => body x;; for_each xs' body
  end.

(** A [for] loop that updates local variables [acc]. *)
Fixpoint fold_each {S A B} (xs : list A) (body : B -> A -> M S B) (acc : B) : M S B :=
  match xs with
  | [] => mret acc
  | x :: xs' => acc' ← body acc x; fold_each xs' body acc'
  end.

(** ** [rgba2rgb] *)

(** A float sample cast to [uint8]: truncated towards zero, then wrapped. *)
Definition float_to_uint8 (x : Q) : Z :=
  astype_uint8 (if Qle_bool 0 x then Qfloor x else Qceiling x).

(** The arithmetic of [rgba2rgb] is numpy's [float32]. A [float32] number is
    kept as the rational it denotes, and every operation rounds its exact
    result to the nearest number of 24 significant bits, ties to even. The
    range of the exponent is left out: from [uint8] operands the code reaches
    neither overflow nor subnormal numbers. *)

(** The exponent [e] of a rational other than 0: [2^e <= |x| < 2^(e+1)]. *)
Definition binade (x : Q) : Z :=
  let e := Z.log2 (Z.abs (Qnum x)) - Z.log2 (Zpos (Qden x)) in
  if Qle_bool (2 ^ e) (Qabs x) then e else e - 1.

Definition round_float32 (x : Q) : Q :=
  if Qeq_bool x 0 then 0%Q
  else let ulp := (2 ^ (binade x - 23))%Q in
       Qred (inject_Z (round_half_even (x / ulp)) * ulp).

(** An integer operand converted to [float32], and the four operations. *)
Definition float32 (z : Z) : Q := round_float32 (inject_Z z).
Definition float32_add (x y : Q) : Q := round_float32 (x + y).
Definition float32_sub (x y : Q) : Q := round_float32 (x - y).
Definition float32_mul (x y : Q) : Q := round_float32 (x * y).
Definition float32_div (x y : Q) : Q := round_float32 (x / y).

(** One sample of [c * a + (1.0 - a) * bg] with
    [a = np.asarray(alpha, dtype='float32') / 255.0], cast to [uint8]. *)
Definition composite_sample (c alpha bg : Z) : Z :=
  let a := float32_div (float32 alpha) 255 in
  float_to_uint8
    (float32_add (float32_mul (float32 c) a)
                 (float32_mul (float32_sub 1 a) (float32 bg))).

Definition rgba2rgb {S} (rgba : Image) (background : Z * Z * Z) : M S Image :=
  let '(row, col, ch) := shape3 rgba in
  if (ch =? 3)%nat then mret rgba
  else if negb (ch =? 4)%nat then raise (AssertionError "RGBA image has 4 channels.")
  else
    let '(R, G, B) := background in
    mret (map2d (fun px =>
                   let r := nth 0 px 0 in
                   let g := nth 1 px 0 in
                   let b := nth 2 px 0 in
                   let a := nth 3 px 0 in
                   [composite_sample r a R; composite_sample g a G;
                    composite_sample b a B]) rgba).

Definition default_background : Z * Z * Z := (255, 255, 255).

(** ** The cell registry builder: [find_cells] *)

(** One [Results] object of the segmentation model: [masks] is
    [prediction.masks], which the model leaves [None] when it detects nothing
    in the image and which otherwise holds one mask per detection
    ([masks.data]); [boxes_cls] is [prediction.boxes.cls], the class id of
    each detection. *)
Record Prediction : Type := {
  masks : option (list (Plane Q));
  boxes_cls : list Z
}.

(** numpy's [_shrink_mask]: a mask without a [True] entry becomes [nomask]. *)
Definition shrink_mask (m : list (Plane bool)) : Mask :=
  if existsb (existsb (existsb id)) m then mask_array m else nomask.

(** [np.ma.masked_where(condition, a)]: [IndexError] when the shapes differ;
    the mask of the result is the condition, shrunk. *)
Definition masked_where {S} (condition : list (Plane bool)) (a : Image)
    : M S MaskedArray :=
  if decide (shape3 condition = shape3 a)
  then mret {| data := a; mask := shrink_mask condition |}
  else raise IndexError.

Section Registry.
(** [CELLS_DETECTOR.predict(image, classes=..., conf=...)] *)
Variable predict : Image -> list Z -> Q -> list Prediction.
(** [CELLS_DETECTOR.names], a dictionary from class id to class name. *)
Variable names : Z -> option string.
(** [cv2.resize(mask, dsize=..., interpolation=cv2.INTER_LINEAR)] *)
Variable cv2_resize : Plane Q -> nat * nat -> Plane Q.

(** [names[int(c)]] *)
Definition names_getitem {S} (c : Z) : M S string :=
  match names c with
  | Some n => mret n
  | None => raise KeyError
  end.

(** The body of [for mask, cls in zip(np.rollaxis(masks, 2), classes)]. *)
Definition append_cell (mask_cls : Plane Q * Z) : M Detector unit :=
  let '(mask, cls) := mask_cls in
  img ← gets image;
  let mask := cv2_resize mask (length img, length (hd [] img)) in
  let mask3d := map2d (fun v => replicate 3 (negb (Qle_bool v 0))) mask in
  masked_image ← masked_where (map3d negb mask3d) img;
  cell_type ← CellType_of_value cls;
  let cell := Cell_init masked_image cell_type in
  modify (set_cells (fun cs => cs ++ [cell])).

(** The body of [for prediction in predictions]. *)
Definition append_cells (prediction : Prediction) : M Detector unit :=
  match masks prediction with
  | None => raise AttributeError
  | Some masks =>
    let classes := boxes_cls prediction in
    for_each (zip masks classes) append_cell
  end.

(** The body of [for c in r.boxes.cls], on the pair
    [(number_explode, number_whole)]. *)
Definition count_class {S} (counts : Z * Z) (c : Z) : M S (Z * Z) :=
  let '(number_explode, number_whole) := counts in
  name ← names_getitem c;
  let number_whole :=
    if String.eqb name "Whole cell" then number_whole + 1 else number_whole in
  name ← names_getitem c;
  let number_explode :=
    if String.eqb name "Explode cell" then number_explode + 1 else number_explode in
  mret (number_explode, number_whole).

(** [find_cells]; what it prints is not part of the state. *)
Definition find_cells (confidence : Q) : M Detector (Z * Z) :=
  cs ← gets cells;
  (if decide (cs = []) then mret tt else modify (set_cells (fun _ => [])));;
  img ← gets image;
  let predictions := predict img [0; 1] confidence in
  for_each predictions append_cells;;
  fold_each predictions
    (fun counts r => fold_each (boxes_cls r) count_class counts) (0, 0).
End Registry.

(** ** [detect_chromosomes] *)

Section Detection.
Variable GaussianBlur : Image -> nat * nat -> Q -> Image.
Variable Contour : Type.
Variable findContours : Plane Z -> option (list Contour).
Variable pointPolygonTest : Contour -> Point -> spec_float.

Definition detect_chromosomes : M Detector unit :=
  img ← gets image;
  let unsharped_image := unsharp_mask GaussianBlur img (5, 5)%nat 5 5 100 in
  let red_channel := channel 0 0 unsharped_image in
  let green_channel := channel 0 1 unsharped_image in
  let red_chromosome_candidates := get_chromosome_candidates red_channel in
  let green_chromosome_candidates := get_chromosome_candidates green_channel in
  let closeness := float_1 in
  modify (set_RedChromosome (fun _ => 0));;
  modify (set_GreenChromosome (fun _ => 0));;
  filter_chromosomes Contour findContours pointPolygonTest
    red_chromosome_candidates "red" closeness;;
  filter_chromosomes Contour findContours pointPolygonTest
    green_chromosome_candidates "green" closeness.
End Detection.

Arguments first_contour {Contour} findContours {S} m.
Arguments scan_cells {Contour} findContours pointPolygonTest idx candidate
  chromosome_type closeness accepted js.
Arguments filter_loop {Contour} findContours pointPolygonTest chromosome_type
  closeness candidates accepted.
Arguments filter_chromosomes_accepted {Contour} findContours pointPolygonTest
  chromosome_candidates chromosome_type closeness.
Arguments filter_chromosomes {Contour} findContours pointPolygonTest
  chromosome_candidates chromosome_type closeness.
Arguments detect_chromosomes GaussianBlur {Contour} findContours pointPolygonTest.

(** ** Specification-level notions used by the statements below *)

Definition areas (d : Detector) : list MaskedArray := map masked_area (cells d).

Definition red_total (d : Detector) : Z :=
  Z.of_nat (sum_list_with (fun c => length (red_chromosomes c)) (cells d)).
Definition green_total (d : Detector) : Z :=
  Z.of_nat (sum_list_with (fun c => length (green_chromosomes c)) (cells d)).

(** The list and the counter that a channel name selects. *)
Definition chromosomes_of (chromosome_type : string) (c : Cell) : list Point :=
  if String.eqb chromosome_type "red" then red_chromosomes c
  else if String.eqb chromosome_type "green" then green_chromosomes c
  else [].
Definition total_of (chromosome_type : string) (d : Detector) : Z :=
  Z.of_nat (sum_list_with (fun c => length (chromosomes_of chromosome_type c)) (cells d)).
Definition counter_of (chromosome_type : string) (d : Detector) : Z :=
  if String.eqb chromosome_type "red" then RedChromosome d
  else if String.eqb chromosome_type "green" then GreenChromosome d
  else 0.

Definition is_channel (chromosome_type : string) : Prop :=
  chromosome_type = "red"%string \/ chromosome_type = "green"%string.

Definition is_nan (x : spec_float) : bool :=
  match x with S754_nan => true | _ => false end.

Definition count_true (l : list bool) : Z :=
  Z.of_nat (length (filter (fun b => b = true) l)).

Section AssignerSpec.
Context {Contour : Type}.
Variable findContours : Plane Z -> option (list Contour).
Variable pointPolygonTest : Contour -> Point -> spec_float.

(** The [uint8] plane the assigner hands to OpenCV for an area, when the
    area has a mask array. *)
Definition area_mask (ma : MaskedArray) : option (Plane Z) :=
  match mask ma with
  | nomask => None
  | mask_array m => Some (inverted_channel m)
  end.

(** What the assigner gets for an area before it measures a distance: the
    first contour of its mask, or the exception raised on the way. *)
Definition area_contour (ma : MaskedArray) : exn + Contour :=
  match area_mask ma with
  | None => inl IndexError
  | Some plane =>
    match findContours plane with
    | None => inl cv2_error
    | Some [] => inl IndexError
    | Some (contour :: _) => inr contour
    end
  end.

(** The signed distance the assigner computes for a candidate and a cell
    mask, when the mask has a first contour. *)
Definition contour_distance (ma : MaskedArray) (candidate : Point) : option spec_float :=
  match area_contour ma with
  | inr contour => Some (pointPolygonTest contour (rev candidate))
  | inl _ => None
  end.

(** The eligibility test of the inner loop. *)
Definition eligibleb (closeness : spec_float) (candidate : Point) (ma : MaskedArray) : bool :=
  match contour_distance ma candidate with
  | Some distance => SFltb float_0 distance && negb (SFleb distance closeness)
  | None => false
  end.

(** The first cell, in registry order, for which the candidate is eligible. *)
Definition owner (closeness : spec_float) (mas : list MaskedArray) (candidate : Point)
    : option nat :=
  fst <$> list_find (fun ma => eligibleb closeness candidate ma = true) mas.

(** What the inner loop does on the cells [mas], numbered from [k]. *)
Inductive scan_result : Type :=
  | Found (j : nat)
  | NotFound
  | Fails (e : exn).

Fixpoint scan_pure (closeness : spec_float) (candidate : Point)
    (mas : list MaskedArray) (k : nat) : scan_result :=
  match mas with
  | [] => NotFound
  | ma :: mas' =>
    match area_contour ma with
    | inl e => Fails e
    | inr contour =>
      let distance := pointPolygonTest contour (rev candidate) in
      if SFltb float_0 distance && negb (SFleb distance closeness)
      then Found k
      else scan_pure closeness candidate mas' (S k)
    end
  end.

(** The state change of one acceptance. *)
Definition record_chromosome (chromosome_type : string) (j : nat) (candidate : Point)
    (d : Detector) : Detector :=
  if String.eqb chromosome_type "red" then
    set_RedChromosome (fun n => n + 1)
      (set_cells (fun cs => alter (add_red_chromosome candidate) j cs) d)
  else if String.eqb chromosome_type "green" then
    set_GreenChromosome (fun n => n + 1)
      (set_cells (fun cs => alter (add_green_chromosome candidate) j cs) d)
  else d.

Definition assign_one (chromosome_type : string) (closeness : spec_float)
    (mas : list MaskedArray) (d : Detector) (candidate : Point) : Detector :=
  match owner closeness mas candidate with
  | Some j => record_chromosome chromosome_type j candidate d
  | None => d
  end.

Definition assign_all (chromosome_type : string) (closeness : spec_float)
    (mas : list MaskedArray) (candidates : list Point) (d : Detector) : Detector :=
  foldl (assign_one chromosome_type closeness mas) d candidates.

Definition owned (closeness : spec_float) (mas : list MaskedArray) (candidate : Point)
    : bool :=
  bool_decide (is_Some (owner closeness mas candidate)).

(** How many of the candidates find an owner. *)
Definition accepted_count (closeness : spec_float) (mas : list MaskedArray)
    (ps : list Point) : Z :=
  count_true (map (owned closeness mas) ps).
End AssignerSpec.

(** What [detect_chromosomes] hands to the assigner. *)
Section DetectionSpec.
Variable GaussianBlur : Image -> nat * nat -> Q -> Image.

(** The candidates that [detect_chromosomes] extracts from channel [k]. *)
Definition channel_candidates (k : nat) (img : Image) : list Point :=
  get_chromosome_candidates
    (channel 0 k (unsharp_mask GaussianBlur img (5, 5)%nat 5 5 100)).
End DetectionSpec.

(** The (mask, class id) pairs that [find_cells] iterates over, in order. *)
Definition detections (predictions : list Prediction) : list (Plane Q * Z) :=
  concat (map (fun p => zip (default [] (masks p)) (boxes_cls p)) predictions).

Section RegistrySpec.
Variable cv2_resize : Plane Q -> nat * nat -> Plane Q.

(** The masked image that [find_cells] builds from one raw mask. *)
Definition built_area (img : Image) (m : Plane Q) : MaskedArray :=
  {| data := img;
     mask := shrink_mask
               (map3d negb
                  (map2d (fun v => replicate 3 (negb (Qle_bool v 0)))
                     (cv2_resize m (length img, length (hd [] img))))) |}.

(** [cell] is the cell that [find_cells] builds for one detection. *)
Definition cell_from (img : Image) (cell : Cell) (mask_cls : Plane Q * Z) : Prop :=
  cell = Cell_init (built_area img (fst mask_cls)) (cell_type cell) /\
  (cell_type cell = EXPLODED <-> snd mask_cls = 0) /\
  (cell_type cell = WHOLE <-> snd mask_cls = 1).
End RegistrySpec.

(** [self.cells.clear()] *)
Definition clear_cells (d : Detector) : Detector := set_cells (fun _ => []) d.

(** A plane of zeros. *)
Definition zero_plane (a : Plane Z) : Prop := Forall (Forall (fun v => v = 0)) a.

(** ** Regions of a plane *)

(** The sample at (row, col). *)
Definition pixel {A} (a : Plane A) (p : nat * nat) : option A :=
  a !! p.1 ≫= (fun row => row !! p.2).

(** All rows have the length of the first one, as in a numpy array. *)
Definition rectangular {A} (a : Plane A) : Prop :=
  Forall (fun row => length row = length (hd [] a)) a.

Definition pixel_id (width : nat) (p : nat * nat) : nat := raster_id width p.1 p.2.

Section Connectivity.
Variable a : Plane Z.
Variable background : Z.
Variable connectivity : nat.

(** [q] is a neighbour of [p] for the given connectivity. *)
Definition steps_to (p q : nat * nat) : Prop :=
  exists dr dc, (dr, dc) ∈ neighbours connectivity /\
    Z.of_nat q.1 = Z.of_nat p.1 + dr /\ Z.of_nat q.2 = Z.of_nat p.2 + dc.

(** Neighbouring pixels of the array with the same non-background value. *)
Definition adjacent (p q : nat * nat) : Prop :=
  exists v, pixel a p = Some v /\ pixel a q = Some v /\ v <> background /\
    steps_to p q.

(** Pixels of one region: joined by a chain of adjacent pixels. *)
Definition connected : relation (nat * nat) := rtc adjacent.

(** The invariant of the propagation: the identifiers have the shape of the
    array, background pixels carry 0, and a foreground pixel carries the
    identifier of a pixel of its region. *)
Definition settled_by (ids : Plane nat) : Prop :=
  (exists f, ids = imap2d f a) /\
  (forall p v, pixel a p = Some v -> v = background -> pixel ids p = Some 0%nat) /\
  (forall p v, pixel a p = Some v -> v <> background ->
     exists q, connected p q /\ pixel ids p = Some (pixel_id (length (hd [] a)) q)).
End Connectivity.

(** An RGBA image whose alpha channel is 0 everywhere. *)
Definition transparent (rgba : Image) : Prop :=
  Forall (Forall (fun px => nth 3 px 0 = 0)) rgba.

(** Alpha compositing in integers: [v] is the exact blend
    [(c alpha + bg (255 - alpha)) / 255] of a colour sample and a background
    sample, cut to an integer, or, when the exact blend is a whole number,
    possibly one less (single precision can end just below it). *)
Definition blends (c alpha bg v : Z) : Prop :=
  let n := c * alpha + bg * (255 - alpha) in
  v = n / 255 \/ (n mod 255 = 0 /\ 0 < n /\ v = n / 255 - 1).

(** The pixel that compositing makes of an RGBA pixel. *)
Definition composited (R G B : Z) (px out : list Z) : Prop :=
  exists r g b, out = [r; g; b] /\
    blends (nth 0 px 0) (nth 3 px 0) R r /\
    blends (nth 1 px 0) (nth 3 px 0) G g /\
    blends (nth 2 px 0) (nth 3 px 0) B b.

(** [x] is within [d] of [y]. *)
Definition near (x y d : Q) : Prop := (Qabs (x - y) <= d)%Q.

(** Half the distance between 1 and the next [float32] number. *)
Definition eps32 : Q := 1 # 16777216.

(** The same sample computed with the IEEE 754 binary32 operations of the
    Standard Library, for comparison. *)
Definition binary32 (z : Z) : spec_float := binary_normalize 24 128 z 0 false.
Definition binary32_truncate (x : spec_float) : Z :=
  match x with
  | S754_finite s m e =>
      let v := if 0 <=? e then Zpos m * 2 ^ e else Zpos m / 2 ^ (- e) in
      if s then - v else v
  | _ => 0
  end.
Definition composite_sample_binary32 (c alpha bg : Z) : Z :=
  let a := SFdiv 24 128 (binary32 alpha) (binary32 255) in
  astype_uint8
    (binary32_truncate
       (SFadd 24 128 (SFmul 24 128 (binary32 c) a)
          (SFmul 24 128 (SFsub 24 128 (binary32 1) a) (binary32 bg)))).

(** [range(n)] *)
Definition range (n : nat) : list Z := map Z.of_nat (seq 0 n).

Definition reset_counters (d : Detector) : Detector :=
  set_GreenChromosome (fun _ => 0) (set_RedChromosome (fun _ => 0) d).

(** ** The extractor in terms of the image *)

(** Pixels at most one row and one column apart: [q] lies in the 3 x 3
    square around [p]. *)
Definition beside (p q : nat * nat) : Prop :=
  (p.1 <= q.1 + 1 /\ q.1 <= p.1 + 1 /\ p.2 <= q.2 + 1 /\ q.2 <= p.2 + 1)%nat.

(** Pixels next to each other in a row or in a column. *)
Definition touching (p q : nat * nat) : Prop :=
  (p.1 = q.1 /\ (p.2 = S q.2 \/ q.2 = S p.2)) \/
  (p.2 = q.2 /\ (p.1 = S q.1 \/ q.1 = S p.1)).

(** [p] comes before [q] when the array is read row by row. *)
Definition raster_lt (p q : nat * nat) : Prop :=
  (p.1 < q.1 \/ (p.1 = q.1 /\ p.2 < q.2))%nat.

Section Blobs.
Variable image : Plane Z.

(** A pixel of the image whose 3 x 3 square holds a sample above the cutoff
    100 and a sample not above it: a pixel on the rim of a bright blob. *)
Definition on_boundary (p : nat * nat) : Prop :=
  is_Some (pixel image p) /\
  (exists q v, beside p q /\ pixel image q = Some v /\ 100 < v) /\
  (exists q v, beside p q /\ pixel image q = Some v /\ v <= 100).

(** Rim pixels that touch, and rim pixels joined by a chain of such. *)
Definition linked (p q : nat * nat) : Prop :=
  on_boundary p /\ on_boundary q /\ touching p q.
Definition same_blob : relation (nat * nat) := rtc linked.
End Blobs.

(** The mean position (row, col) of a list of pixels, in lowest terms. *)
Definition mean_point (ps : list (nat * nat)) : Point :=
  let n := inject_Z (Z.of_nat (length ps)) in
  [ Qred (Qsum (map (fun p : nat * nat => inject_Z (Z.of_nat p.1)) ps) / n)%Q;
    Qred (Qsum (map (fun p : nat * nat => inject_Z (Z.of_nat p.2)) ps) / n)%Q ].

(** The pixels that carry the label [k], row by row. *)
Definition blob_of (labels : Plane Z) (k : Z) : list (nat * nat) :=
  omap (fun '(r, c, l) => if l =? k then Some (r, c) else None)
       (enumerate2d labels).

(** ** A concrete scene

    A 5 x 5 image with one bright red pixel in the middle, a model that
    reports one whole cell covering the image, and simple stand-ins for the
    library routines on that scene. *)
Module Scenario.

Definition Z2SF (z : Z) : spec_float := binary_normalize 53 1024 z 0 false.
Definition Q2SF (q : Q) : spec_float :=
  SFdiv 53 1024 (Z2SF (Qnum q)) (Z2SF (Zpos (Qden q))).

Definition Contour : Type := Plane Z.

(** The whole mask as its only contour; an empty mask has none. *)
Definition findContours (m : Plane Z) : option (list Contour) :=
  if forallb (forallb (Z.eqb 0)) m then Some [] else Some [m].

(** The distance from (x, y) to the frame of a mask that fills its array. *)
Definition pointPolygonTest (contour : Contour) (pt : Point) : spec_float :=
  match pt with
  | [x; y] =>
    let w := inject_Z (Z.of_nat (length (hd [] contour)) - 1) in
    let h := inject_Z (Z.of_nat (length contour) - 1) in
    Q2SF (Qred (Qminimum (Qminimum x (w - x)) (Qminimum y (h - y))))
  | _ => S754_nan
  end.

(** A 5 x 5 Gaussian blur of sigma 5 in 8-bit fixed point, separable, with
    the border reflected about the edge samples; the weights are those of
    the call in [detect_chromosomes], whatever [ksize] and [sigma]. *)
Definition gaussian_5 : list (Z * Z) :=
  [(-2, 49); (-1, 52); (0, 54); (1, 52); (2, 49)].
Definition reflect_101 (n : nat) (i : Z) : nat :=
  Z.to_nat (if i <? 0 then - i
            else if Z.of_nat n <=? i then 2 * (Z.of_nat n - 1) - i
            else i).
Definition sample (img : Image) (r c : Z) (ch : nat) : Z :=
  nth ch (nth (reflect_101 (length (hd [] img)) c)
              (nth (reflect_101 (length img) r) img []) []) 0.
Definition GaussianBlur (img : Image) (ksize : nat * nat) (sigma : Q) : Image :=
  imap (fun r row => imap (fun c px => imap (fun ch _ =>
      foldr Z.add 32768
        (flat_map (fun '(dr, wr) =>
                     map (fun '(dc, wc) =>
                            wr * wc * sample img (Z.of_nat r + dr) (Z.of_nat c + dc) ch)
                         gaussian_5) gaussian_5) / 65536) px) row) img.

Definition dark : list Z := [0; 0; 0].
Definition image0 : Image :=
  [ [dark; dark; dark; dark; dark];
    [dark; dark; dark; dark; dark];
    [dark; dark; [200; 0; 0]; dark; dark];
    [dark; dark; dark; dark; dark];
    [dark; dark; dark; dark; dark] ].

Definition predict (img : Image) (classes : list Z) (conf : Q) : list Prediction :=
  [ {| masks := Some [replicate 5 (replicate 5 1%Q)]; boxes_cls := [1] |} ].

Definition names (c : Z) : option string :=
  if c =? 0 then Some "Explode cell"%string
  else if c =? 1 then Some "Whole cell"%string
  else None.

Definition cv2_resize (m : Plane Q) (dsize : nat * nat) : Plane Q := m.

(** The detector as constructed, and after [find_cells]. *)
Definition fresh : Detector := Detector_init image0 0 0.
Definition registered : Detector :=
  final_state (find_cells predict names cv2_resize (1 # 2) fresh).

Definition whole_cell : Cell :=
  Cell_init {| data := image0; mask := nomask |} WHOLE.

Definition centre : Point := [2%Q; 2%Q].

(** A dim grey image whose centre pixel is darker than its surroundings. *)
Definition framed (bg fg : Z) : Image :=
  map (fun r => map (fun c => replicate 3 (if (r =? 2)%nat && (c =? 2)%nat
                                           then fg else bg))
                    (seq 0 5)) (seq 0 5).
Definition dim_image : Image := framed 60 10.

(** A model that finds nothing in the image. *)
Definition predict_nothing (img : Image) (classes : list Z) (conf : Q)
    : list Prediction :=
  [ {| masks := None; boxes_cls := [] |} ].

(** A fully transparent two-pixel RGBA image. *)
Definition clear_rgba : Image := [ [ [10; 20; 30; 0]; [1; 2; 3; 0] ] ].

End Scenario.

(** ** A scene with two overlapping cells

    A 9 x 9 image with one bright red pixel in the middle and a model that
    reports two cells, a whole one and an exploded one, whose masks are
    upright rectangles that both contain the middle and stay clear of the
    border of the image; OpenCV's routines on such masks. *)
Module Overlap.

Definition image0 : Image :=
  map (fun r => map (fun c => if (r =? 4)%nat && (c =? 4)%nat
                              then [200; 0; 0] else Scenario.dark)
                    (seq 0 9)) (seq 0 9).

(** A 9 x 9 mask of ones on the rows [r0..r1] and the columns [c0..c1]. *)
Definition block (r0 c0 r1 c1 : nat) : Plane Q :=
  map (fun r => map (fun c => if (r0 <=? r)%nat && (r <=? r1)%nat &&
                                 (c0 <=? c)%nat && (c <=? c1)%nat
                              then 1%Q else 0%Q)
                    (seq 0 9)) (seq 0 9).

Definition predict (img : Image) (classes : list Z) (conf : Q) : list Prediction :=
  [ {| masks := Some [block 2 2 6 6; block 1 1 7 7]; boxes_cls := [1; 0] |} ].

(** The border of an upright rectangle, by its corner pixels (x0, y0) and
    (x1, y1): (x0, y0, x1, y1). *)
Definition Contour : Type := Z * Z * Z * Z.

(** The first and the last index that is set. *)
Definition extent (hits : list bool) : option (Z * Z) :=
  match list_find (fun b => b = true) hits,
        list_find (fun b => b = true) (rev hits) with
  | Some (i, _), Some (j, _) =>
      Some (Z.of_nat i, Z.of_nat (length hits) - 1 - Z.of_nat j)
  | _, _ => None
  end.

(** In a mask whose ones fill an upright rectangle OpenCV finds one contour,
    the border of the rectangle; in a mask of zeros it finds none. *)
Definition findContours (m : Plane Z) : option (list Contour) :=
  let set (v : Z) := negb (v =? 0) in
  let rows := map (existsb set) m in
  let cols := map (fun c => existsb (fun row => set (nth c row 0)) m)
                  (seq 0 (length (hd [] m))) in
  match extent rows, extent cols with
  | Some (y0, y1), Some (x0, x1) => Some [(x0, y0, x1, y1)]
  | _, _ => Some []
  end.

(** [cv2.pointPolygonTest(contour, pt, measureDist=True)] for the border of
    an upright rectangle and a point (x, y): the distance from the point to
    the border, positive inside and negative outside. *)
Definition pointPolygonTest (contour : Contour) (pt : Point) : spec_float :=
  let '(x0, y0, x1, y1) := contour in
  match pt with
  | [x; y] =>
    let dx := Qmaximum (Qmaximum (inject_Z x0 - x) (x - inject_Z x1)) 0 in
    let dy := Qmaximum (Qmaximum (inject_Z y0 - y) (y - inject_Z y1)) 0 in
    if Qle_bool dx 0 && Qle_bool dy 0 then
      Scenario.Q2SF
        (Qred (Qminimum (Qminimum (x - inject_Z x0) (inject_Z x1 - x))
                        (Qminimum (y - inject_Z y0) (inject_Z y1 - y))))
    else
      SFopp (SFsqrt 53 1024 (Scenario.Q2SF (Qred (dx * dx + dy * dy))))
  | _ => S754_nan
  end.

(** The detector as constructed, and after [find_cells]. *)
Definition fresh : Detector := Detector_init image0 0 0.
Definition registered : Detector :=
  final_state (find_cells predict Scenario.names Scenario.cv2_resize (1 # 2) fresh).

(** The mask array of a cell: [True] outside the rectangle. *)
Definition outside (r0 c0 r1 c1 : nat) : Mask :=
  mask_array (map2d (fun v => replicate 3 (Qle_bool v 0)) (block r0 c0 r1 c1)).

Definition inner_cell : Cell :=
  Cell_init {| data := image0; mask := outside 2 2 6 6 |} WHOLE.
Definition outer_cell : Cell :=
  Cell_init {| data := image0; mask := outside 1 1 7 7 |} EXPLODED.

(** The middle of the image, and a point on its upper border. *)
Definition centre : Point := [4%Q; 4%Q].
Definition top_middle : Point := [0%Q; 4%Q].

(** The detector after [find_cells] and [detect_chromosomes]. *)
Definition detected : Detector :=
  final_state (detect_chromosomes Scenario.GaussianBlur findContours
                 pointPolygonTest registered).

End Overlap.

(** * Properties *)

(** ** Float comparison *)

Lemma SFcompare_antisym (x y : spec_float) :
  SFcompare y x = option_map CompOpp (SFcompare x y).
Proof.
  destruct x as [sx|sx| |sx mx ex], y as [sy|sy| |sy my ey]; simpl;
    try reflexivity;
    try (destruct sx; reflexivity);
    try (destruct sy; reflexivity);
    try (destruct sx, sy; reflexivity).
  assert (Hm : Pos.compare_cont Eq my mx = CompOpp (Pos.compare_cont Eq mx my))
    by apply (Pos.compare_antisym mx my).
  destruct sx, sy; try reflexivity; f_equal;
    rewrite (Z.compare_antisym ex ey);
    destruct (ex ?= ey); simpl; try reflexivity;
    rewrite Hm; now destruct (Pos.compare_cont Eq mx my).
Qed.

Lemma SFleb_false_SFltb (x y : spec_float) :
  SFltb float_0 x = true -> is_nan y = false ->
  SFleb x y = false -> SFltb y x = true.
Proof.
  unfold SFltb, SFleb. intros Hx Hy Hle. rewrite (SFcompare_antisym x y).
  assert (Hc : exists c, SFcompare x y = Some c).
  { destruct x, y; simpl in *; try discriminate; eauto. }
  destruct Hc as [c Hc]. rewrite Hc in *. destruct c; simpl; congruence.
Qed.

(** Nothing is [<=] a NaN: with a NaN closeness the border test of the
    assigner never fires. *)
Lemma SFleb_nan_r (x : spec_float) : SFleb x S754_nan = false.
Proof. now destruct x. Qed.

Lemma SFltb_0_not_SFleb_0 (x : spec_float) :
  SFleb x float_0 = true -> SFltb float_0 x = false.
Proof.
  unfold SFltb, SFleb. rewrite (SFcompare_antisym x float_0).
  destruct (SFcompare x float_0) as [[]|]; simpl; congruence.
Qed.

(** ** The chromosome assigner *)

Section AssignerFacts.
Context {Contour : Type}.
Variable findContours : Plane Z -> option (list Contour).
Variable pointPolygonTest : Contour -> Point -> spec_float.

Local Abbreviation scan_pure' := (scan_pure findContours pointPolygonTest).
Local Abbreviation owner' := (owner findContours pointPolygonTest).
Local Abbreviation eligibleb' := (eligibleb findContours pointPolygonTest).

Lemma areas_lookup (d : Detector) (k : nat) (c : Cell) :
  cells d !! k = Some c -> areas d !! k = Some (masked_area c).
Proof. intros H. unfold areas. now rewrite list_lookup_fmap, H. Qed.

Lemma scan_cells_eq (idx : nat) (candidate : Point) (chromosome_type : string)
    (closeness : spec_float) (n : nat) :
  forall (k : nat) (accepted : list bool) (d : Detector),
  accepted !! idx = Some false ->
  length (cells d) = (k + n)%nat ->
  scan_cells findContours pointPolygonTest idx candidate chromosome_type closeness
    accepted (seq k n) d =
  match scan_pure' closeness candidate (drop k (areas d)) k with
  | Found j => Returned (<[idx := true]> accepted)
                 (record_chromosome chromosome_type j candidate d)
  | NotFound => Returned accepted d
  | Fails e => Raised e d
  end.
Proof.
  induction n as [|n IH]; intros k accepted d Hacc Hlen.
  - rewrite drop_ge by (unfold areas; rewrite length_map; lia). reflexivity.
  - destruct (lookup_lt_is_Some_2 (cells d) k) as [c Hc]; [lia|].
    rewrite (drop_S _ _ _ (areas_lookup _ _ _ Hc)).
    cbn [seq scan_cells scan_pure].
    unfold mbind, M_bind, gets at 1. rewrite Hc.
    unfold area_contour, area_mask, cell_mask.
    destruct (mask (masked_area c)) as [|m]; [reflexivity|].
    unfold mret at 1, M_ret at 1, first_contour.
    destruct (findContours (inverted_channel m)) as [[|contour rest]|];
      try reflexivity.
    unfold mret, M_ret at 1. rewrite Hacc. cbn [negb andb].
    destruct (SFltb float_0 _ && negb (SFleb _ closeness)) eqn:E.
    + unfold record_chromosome, update_cell, modify, mret, M_ret.
      destruct (String.eqb chromosome_type "red"); [reflexivity|].
      destruct (String.eqb chromosome_type "green"); reflexivity.
    + apply IH; [assumption | lia].
Qed.

Lemma scan_pure_owner (closeness : spec_float) (candidate : Point)
    (mas : list MaskedArray) :
  forall k : nat,
  match scan_pure' closeness candidate mas k with
  | Found j => exists i, j = (k + i)%nat /\ owner' closeness mas candidate = Some i
  | NotFound => owner' closeness mas candidate = None
  | Fails _ => True
  end.
Proof.
  unfold owner.
  induction mas as [|ma mas IH]; intros k; cbn [scan_pure]; [reflexivity|].
  cbn [list_find].
  destruct (area_contour findContours ma) as [e|contour] eqn:Hfc;
    [exact I|].
  assert (He : eligibleb' closeness candidate ma =
               SFltb float_0 (pointPolygonTest contour (rev candidate)) &&
               negb (SFleb (pointPolygonTest contour (rev candidate)) closeness))
    by (unfold eligibleb, contour_distance; now rewrite Hfc).
  destruct (SFltb float_0 _ && negb (SFleb _ closeness)) eqn:E.
  - rewrite decide_True by exact He. exists 0%nat. split; [lia|reflexivity].
  - rewrite decide_False by (rewrite He; discriminate).
    specialize (IH (S k)).
    destruct (scan_pure' closeness candidate mas (S k)) as [j| |e]; [| |exact I].
    + destruct IH as (i & -> & Hi). exists (S i). split; [lia|].
      destruct (list_find _ mas) as [[i' x]|]; simpl in *; congruence.
    + destruct (list_find _ mas) as [[i' x]|]; simpl in *; congruence.
Qed.


Lemma owner_first (closeness : spec_float) (mas : list MaskedArray)
    (candidate : Point) (j : nat) :
  owner' closeness mas candidate = Some j <->
  exists ma, mas !! j = Some ma /\ eligibleb' closeness candidate ma = true /\
    forall j' ma', mas !! j' = Some ma' -> (j' < j)%nat ->
      eligibleb' closeness candidate ma' = false.
Proof.
  unfold owner. split.
  - destruct (list_find _ mas) as [[i ma]|] eqn:E; simpl; [|discriminate].
    intros [= ->]. apply list_find_Some in E as (Hl & He & Hlt).
    exists ma. repeat split; try assumption.
    intros j' ma' Hj' Hlt'. specialize (Hlt j' ma' Hj' Hlt').
    now destruct (eligibleb' closeness candidate ma').
  - intros (ma & Hl & He & Hlt).
    assert (E : list_find (fun ma => eligibleb' closeness candidate ma = true) mas
                = Some (j, ma)).
    { apply list_find_Some. repeat split; try assumption.
      intros j' ma' Hj' Hlt'. rewrite (Hlt j' ma' Hj' Hlt'). discriminate. }
    now rewrite E.
Qed.

Lemma owner_lt (closeness : spec_float) (mas : list MaskedArray)
    (candidate : Point) (j : nat) :
  owner' closeness mas candidate = Some j -> (j < length mas)%nat.
Proof.
  intros H. apply owner_first in H as (ma & Hl & _).
  now apply lookup_lt_Some in Hl.
Qed.

Lemma areas_record (chromosome_type : string) (j : nat) (p : Point) (d : Detector) :
  areas (record_chromosome chromosome_type j p d) = areas d.
Proof.
  unfold record_chromosome, areas.
  destruct (String.eqb chromosome_type "red");
    [|destruct (String.eqb chromosome_type "green"); [|reflexivity]];
    simpl; apply list_eq; intros k; rewrite !list_lookup_fmap, list_lookup_alter;
    case_decide; subst; try reflexivity; now destruct (cells d !! k).
Qed.

Lemma areas_assign_all (chromosome_type : string) (closeness : spec_float)
    (mas : list MaskedArray) (ps : list Point) :
  forall d, areas (assign_all findContours pointPolygonTest chromosome_type
                     closeness mas ps d) = areas d.
Proof.
  induction ps as [|p ps IH]; intros d; [reflexivity|].
  unfold assign_all in *. cbn [foldl]. rewrite IH. unfold assign_one.
  destruct (owner' closeness mas p); [apply areas_record | reflexivity].
Qed.

Lemma filter_loop_run (chromosome_type : string) (closeness : spec_float)
    (ps : list Point) :
  forall (i : nat) (accepted : list bool) (d : Detector),
  (forall n, (n < length ps)%nat -> accepted !! (i + n)%nat = Some false) ->
  match filter_loop findContours pointPolygonTest chromosome_type closeness
          (combine (seq i (length ps)) ps) accepted d with
  | Returned acc' d' =>
      d' = assign_all findContours pointPolygonTest chromosome_type closeness
             (areas d) ps d /\
      length acc' = length accepted /\
      (forall n p, ps !! n = Some p ->
         acc' !! (i + n)%nat = Some (owned findContours pointPolygonTest
                                       closeness (areas d) p)) /\
      (forall idx, (idx < i)%nat -> acc' !! idx = accepted !! idx)
  | Raised e d' =>
      exists m, (m < length ps)%nat /\
        d' = assign_all findContours pointPolygonTest chromosome_type closeness
               (areas d) (take m ps) d
  end.
Proof.
  induction ps as [|p ps IH]; intros i accepted d Hacc.
  - simpl. repeat split; [intros n p Hn; discriminate Hn].
  - cbn [length seq combine filter_loop].
    unfold mbind at 1, M_bind at 1, gets at 1.
    unfold mbind at 1, M_bind at 1.
    assert (Hi : accepted !! i = Some false).
    { specialize (Hacc 0%nat). rewrite Nat.add_0_r in Hacc. apply Hacc. simpl. lia. }
    rewrite (scan_cells_eq i p chromosome_type closeness (length (cells d)) 0
               accepted d Hi eq_refl).
    rewrite drop_0.
    pose proof (scan_pure_owner closeness p (areas d) 0) as Hown.
    destruct (scan_pure' closeness p (areas d) 0) as [j| |e].
    + destruct Hown as (j' & -> & Hown). simpl in Hown |- *.
      specialize (IH (S i) (<[i := true]> accepted)
                    (record_chromosome chromosome_type j' p d)).
      rewrite areas_record in IH.
      assert (Hstep : assign_one findContours pointPolygonTest chromosome_type
                        closeness (areas d) d p
                      = record_chromosome chromosome_type j' p d)
        by (unfold assign_one; now rewrite Hown).
      destruct (filter_loop _ _ _ _ _ _ _) as [acc' d'|e d'].
      * destruct IH as (Hd & Hlen & Hin & Hout).
        { intros n Hn. rewrite list_lookup_insert_ne by lia.
          replace (S i + n)%nat with (i + S n)%nat by lia. apply Hacc. simpl. lia. }
        split; [|split; [|split]].
        -- unfold assign_all. cbn [foldl]. now rewrite Hstep.
        -- now rewrite Hlen, length_insert.
        -- intros [|n] q Hq.
           ++ injection Hq as <-. rewrite Nat.add_0_r, Hout by lia.
              rewrite list_lookup_insert_eq by (now apply lookup_lt_Some in Hi).
              unfold owned. rewrite Hown. reflexivity.
           ++ replace (i + S n)%nat with (S i + n)%nat by lia. now apply Hin.
        -- intros idx Hidx. rewrite Hout by lia.
           now rewrite list_lookup_insert_ne by lia.
      * destruct IH as (m & Hm & Hd).
        { intros n Hn. rewrite list_lookup_insert_ne by lia.
          replace (S i + n)%nat with (i + S n)%nat by lia. apply Hacc. simpl. lia. }
        exists (S m). split; [simpl; lia|].
        unfold assign_all. cbn [take foldl]. now rewrite Hstep.
    + specialize (IH (S i) accepted d).
      assert (Hstep : assign_one findContours pointPolygonTest chromosome_type
                        closeness (areas d) d p = d)
        by (unfold assign_one; now rewrite Hown).
      destruct (filter_loop _ _ _ _ _ _ _) as [acc' d'|e d'].
      * destruct IH as (Hd & Hlen & Hin & Hout).
        { intros n Hn. replace (S i + n)%nat with (i + S n)%nat by lia.
          apply Hacc. simpl. lia. }
        split; [|split; [|split]].
        -- unfold assign_all. cbn [foldl]. now rewrite Hstep.
        -- assumption.
        -- intros [|n] q Hq.
           ++ injection Hq as <-. rewrite Nat.add_0_r, Hout, Hi by lia.
              unfold owned. rewrite Hown. reflexivity.
           ++ replace (i + S n)%nat with (S i + n)%nat by lia. now apply Hin.
        -- intros idx Hidx. apply Hout. lia.
      * destruct IH as (m & Hm & Hd).
        { intros n Hn. replace (S i + n)%nat with (i + S n)%nat by lia.
          apply Hacc. simpl. lia. }
        exists (S m). split; [simpl; lia|].
        unfold assign_all. cbn [take foldl]. now rewrite Hstep.
    + exists 0%nat. split; [simpl; lia | reflexivity].
Qed.


Lemma chromosomes_of_add (chromosome_type : string) (p : Point) (c : Cell) :
  is_channel chromosome_type ->
  chromosomes_of chromosome_type
    ((if String.eqb chromosome_type "red" then add_red_chromosome p
      else add_green_chromosome p) c)
  = chromosomes_of chromosome_type c ++ [p].
Proof. intros [-> | ->]; reflexivity. Qed.

Lemma record_chromosome_cells (chromosome_type : string) (j : nat) (p : Point)
    (d : Detector) :
  is_channel chromosome_type ->
  cells (record_chromosome chromosome_type j p d)
  = alter (if String.eqb chromosome_type "red" then add_red_chromosome p
           else add_green_chromosome p) j (cells d).
Proof. intros [-> | ->]; reflexivity. Qed.

Lemma assign_all_cells (chromosome_type : string) (closeness : spec_float)
    (mas : list MaskedArray) (ps : list Point) :
  is_channel chromosome_type ->
  forall (d : Detector) (j : nat) (c : Cell),
  cells d !! j = Some c ->
  exists c',
    cells (assign_all findContours pointPolygonTest chromosome_type closeness
             mas ps d) !! j = Some c' /\
    chromosomes_of chromosome_type c'
    = chromosomes_of chromosome_type c
      ++ filter (fun p => owner' closeness mas p = Some j) ps /\
    masked_area c' = masked_area c /\ cell_type c' = cell_type c.
Proof.
  intros Hty. induction ps as [|p ps IH]; intros d j c Hc.
  - exists c. simpl. rewrite app_nil_r. auto.
  - unfold assign_all in *. cbn [foldl]. rewrite filter_cons.
    unfold assign_one at 2.
    destruct (owner' closeness mas p) as [j'|] eqn:Hown.
    + destruct (decide (j' = j)) as [->|Hne].
      * set (add := if String.eqb chromosome_type "red" then add_red_chromosome p
                    else add_green_chromosome p).
        destruct (IH (record_chromosome chromosome_type j p d) j (add c))
          as (c' & Hc' & Hl & Hm & Ht).
        { rewrite record_chromosome_cells by assumption.
          now rewrite list_lookup_alter_eq, Hc. }
        exists c'. split; [assumption|]. rewrite decide_True by reflexivity.
        rewrite Hl. unfold add at 1. rewrite chromosomes_of_add by assumption.
        rewrite <- app_assoc. repeat split; [rewrite Hm | rewrite Ht];
          unfold add; destruct (String.eqb chromosome_type "red"); reflexivity.
      * destruct (IH (record_chromosome chromosome_type j' p d) j c)
          as (c' & Hc' & Hl & Hm & Ht).
        { rewrite record_chromosome_cells by assumption.
          now rewrite list_lookup_alter_ne. }
        exists c'. rewrite decide_False by congruence. auto.
    + destruct (IH d j c Hc) as (c' & Hc' & Hl & Hm & Ht).
      exists c'. rewrite decide_False by discriminate. auto.
Qed.

Lemma assign_all_length (chromosome_type : string) (closeness : spec_float)
    (mas : list MaskedArray) (ps : list Point) (d : Detector) :
  length (cells (assign_all findContours pointPolygonTest chromosome_type
                   closeness mas ps d)) = length (cells d).
Proof.
  pose proof (areas_assign_all chromosome_type closeness mas ps d) as H.
  apply (f_equal length) in H. unfold areas in H.
  now rewrite !length_map in H.
Qed.

Lemma sum_list_with_alter {A} (f : A -> nat) (g : A -> A) (l : list A) :
  forall (j : nat) (x : A), l !! j = Some x ->
  (sum_list_with f (alter g j l) + f x = sum_list_with f l + f (g x))%nat.
Proof.
  induction l as [|y l IH]; intros [|j] x Hx; try discriminate Hx.
  - injection Hx as ->. cbn. lia.
  - cbn in Hx |- *. specialize (IH j x Hx). lia.
Qed.

Lemma record_chromosome_total (chromosome_type : string) (j : nat) (p : Point)
    (d : Detector) :
  is_channel chromosome_type -> (j < length (cells d))%nat ->
  total_of chromosome_type (record_chromosome chromosome_type j p d)
  = total_of chromosome_type d + 1 /\
  counter_of chromosome_type (record_chromosome chromosome_type j p d)
  = counter_of chromosome_type d + 1.
Proof.
  intros Hty Hj. destruct (lookup_lt_is_Some_2 _ _ Hj) as [c Hc].
  unfold total_of. rewrite record_chromosome_cells by assumption.
  pose proof (sum_list_with_alter
                (fun c => length (chromosomes_of chromosome_type c))
                (if String.eqb chromosome_type "red" then add_red_chromosome p
                 else add_green_chromosome p) (cells d) j c Hc) as Hs.
  cbv beta in Hs. rewrite chromosomes_of_add, length_app in Hs by assumption.
  simpl in Hs. split; [lia|].
  destruct Hty as [-> | ->]; reflexivity.
Qed.

Lemma owned_owner (closeness : spec_float) (mas : list MaskedArray) (p : Point) :
  owned findContours pointPolygonTest closeness mas p
  = match owner' closeness mas p with Some _ => true | None => false end.
Proof.
  unfold owned. destruct (owner' closeness mas p).
  - apply bool_decide_eq_true_2. eauto.
  - apply bool_decide_eq_false_2. intros [? ?]. discriminate.
Qed.

Lemma accepted_count_cons (closeness : spec_float) (mas : list MaskedArray)
    (p : Point) (ps : list Point) :
  accepted_count findContours pointPolygonTest closeness mas (p :: ps)
  = (if owned findContours pointPolygonTest closeness mas p then 1 else 0)
    + accepted_count findContours pointPolygonTest closeness mas ps.
Proof.
  unfold accepted_count, count_true. cbn [map]. rewrite filter_cons.
  destruct (owned findContours pointPolygonTest closeness mas p).
  - rewrite decide_True by reflexivity. cbn [length]. lia.
  - rewrite decide_False by discriminate. lia.
Qed.

Lemma assign_all_cons (chromosome_type : string) (closeness : spec_float)
    (mas : list MaskedArray) (p : Point) (ps : list Point) (d : Detector) :
  assign_all findContours pointPolygonTest chromosome_type closeness mas (p :: ps) d
  = assign_all findContours pointPolygonTest chromosome_type closeness mas ps
      (assign_one findContours pointPolygonTest chromosome_type closeness mas d p).
Proof. reflexivity. Qed.

Lemma assign_all_totals (chromosome_type : string) (closeness : spec_float)
    (ps : list Point) :
  is_channel chromosome_type ->
  forall (mas : list MaskedArray) (d : Detector), areas d = mas ->
  let d' := assign_all findContours pointPolygonTest chromosome_type closeness
              mas ps d in
  total_of chromosome_type d'
  = total_of chromosome_type d + accepted_count findContours pointPolygonTest closeness mas ps /\
  counter_of chromosome_type d'
  = counter_of chromosome_type d + accepted_count findContours pointPolygonTest closeness mas ps.
Proof.
  intros Hty mas. induction ps as [|p ps IH]; intros d Hd; cbn zeta.
  - unfold accepted_count, count_true. simpl. lia.
  - rewrite assign_all_cons, accepted_count_cons, owned_owner.
    unfold assign_one.
    destruct (owner' closeness mas p) as [j|] eqn:Hown.
    + destruct (record_chromosome_total chromosome_type j p d Hty) as [Ht Hc].
      { apply owner_lt in Hown. rewrite <- Hd in Hown. unfold areas in Hown.
        now rewrite length_map in Hown. }
      destruct (IH (record_chromosome chromosome_type j p d)) as [Ht' Hc'].
      { now rewrite areas_record. }
      rewrite Ht', Hc', Ht, Hc. lia.
    + destruct (IH d Hd) as [Ht' Hc']. rewrite Ht', Hc'. lia.
Qed.


Lemma filter_chromosomes_accepted_run (ps : list Point) (chromosome_type : string)
    (closeness : spec_float) (d : Detector) :
  match filter_chromosomes_accepted findContours pointPolygonTest ps
          chromosome_type closeness d with
  | Returned acc d' =>
      d' = assign_all findContours pointPolygonTest chromosome_type closeness
             (areas d) ps d /\
      acc = map (owned findContours pointPolygonTest closeness (areas d)) ps
  | Raised e d' =>
      exists m, (m < length ps)%nat /\
        d' = assign_all findContours pointPolygonTest chromosome_type closeness
               (areas d) (take m ps) d
  end.
Proof.
  unfold filter_chromosomes_accepted, enumerate.
  pose proof (filter_loop_run chromosome_type closeness ps 0
                (replicate (length ps) false) d) as H.
  destruct (filter_loop _ _ _ _ _ _ _) as [acc d'|e d'].
  - destruct H as (Hd & Hlen & Hin & _).
    { intros n Hn. now apply lookup_replicate_2. }
    split; [assumption|]. rewrite length_replicate in Hlen.
    apply list_eq. intros n. rewrite list_lookup_fmap.
    destruct (ps !! n) as [p|] eqn:Hp; simpl.
    + now apply (Hin n p).
    + apply lookup_ge_None. apply lookup_ge_None in Hp. lia.
  - apply H. intros n Hn. now apply lookup_replicate_2.
Qed.

Lemma filter_chromosomes_final_state (ps : list Point) (chromosome_type : string)
    (closeness : spec_float) (d : Detector) :
  exists ps', ps' `prefix_of` ps /\
    final_state (filter_chromosomes_accepted findContours pointPolygonTest ps
                   chromosome_type closeness d)
    = assign_all findContours pointPolygonTest chromosome_type closeness
        (areas d) ps' d.
Proof.
  pose proof (filter_chromosomes_accepted_run ps chromosome_type closeness d) as H.
  destruct (filter_chromosomes_accepted _ _ _ _ _ _) as [acc d'|e d']; simpl.
  - exists ps. split; [reflexivity | apply H].
  - destruct H as (m & _ & ->). exists (take m ps).
    split; [apply prefix_take | reflexivity].
Qed.

Lemma filter_loop_no_cells (chromosome_type : string) (closeness : spec_float)
    (d : Detector) :
  cells d = [] ->
  forall (candidates : list (nat * Point)) (accepted : list bool),
  filter_loop findContours pointPolygonTest chromosome_type closeness
    candidates accepted d = Returned accepted d.
Proof.
  intros Hd. induction candidates as [|[idx p] rest IH]; intros accepted.
  - reflexivity.
  - cbn [filter_loop]. unfold mbind at 1, M_bind at 1, gets at 1.
    rewrite Hd. cbn [length seq scan_cells].
    unfold mbind, M_bind, mret, M_ret at 1. apply IH.
Qed.

End AssignerFacts.

Section AssignerTheorems.
Context {Contour : Type}.
Variable findContours : Plane Z -> option (list Contour).
Variable pointPolygonTest : Contour -> Point -> spec_float.

(** C1. Containment and border exclusion: whatever the run of the assigner
    (returning or raising), every point it has appended to the list of a cell
    has, with the point passed as [rev p], i.e. (col, row), a distance to the
    first contour of that cell's mask that is positive and not [<= closeness];
    so the distance is [> closeness] for every closeness that is a number,
    and it is never [<= 0]. The cell then has a mask array, and the contour
    is the first one OpenCV finds in its inverted first channel. *)
Theorem accepted_point_is_inside (ps : list Point) (chromosome_type : string)
    (closeness : spec_float) (d : Detector) (j : nat) (c c' : Cell) :
  is_channel chromosome_type ->
  cells d !! j = Some c ->
  cells (final_state (filter_chromosomes_accepted findContours pointPolygonTest
                        ps chromosome_type closeness d)) !! j = Some c' ->
  exists added,
    chromosomes_of chromosome_type c' = chromosomes_of chromosome_type c ++ added /\
    forall p, p ∈ added ->
      exists m contour rest,
        mask (masked_area c) = mask_array m /\
        findContours (inverted_channel m) = Some (contour :: rest) /\
        let distance := pointPolygonTest contour (rev p) in
        SFltb float_0 distance = true /\
        SFleb distance closeness = false /\
        (is_nan closeness = false -> SFltb closeness distance = true) /\
        (SFleb float_0 closeness = true -> SFleb distance float_0 = false).
Proof.
  intros Hty Hc Hc'.
  destruct (filter_chromosomes_final_state findContours pointPolygonTest ps
              chromosome_type closeness d) as (ps' & _ & Hfin).
  rewrite Hfin in Hc'.
  destruct (assign_all_cells findContours pointPolygonTest chromosome_type
              closeness (areas d) ps' Hty d j c Hc) as (c'' & Hc'' & Hl & _).
  rewrite Hc'' in Hc'. injection Hc' as <-.
  eexists. split; [exact Hl|].
  intros p Hp. apply list_elem_of_filter in Hp as [Hown _].
  apply owner_first in Hown as (ma & Hma & Hel & _).
  rewrite (areas_lookup d j c Hc) in Hma. injection Hma as <-.
  unfold eligibleb, contour_distance, area_contour, area_mask in Hel.
  destruct (mask (masked_area c)) as [|m]; [discriminate Hel|].
  destruct (findContours (inverted_channel m)) as [[|contour rest]|] eqn:Hfc;
    try discriminate Hel.
  exists m, contour, rest. split; [reflexivity|]. split; [exact Hfc|]. cbn zeta.
  apply andb_true_iff in Hel as [Hin Hnb]. apply negb_true_iff in Hnb.
  repeat split; try assumption.
  - intros Hnan. now apply SFleb_false_SFltb.
  - intros _. destruct (SFleb _ float_0) eqn:E; [|reflexivity].
    apply SFltb_0_not_SFleb_0 in E. congruence.
Qed.

(** C2. Partition: in a pass that returns, a candidate is accepted exactly
    when some cell is eligible for it; the points appended to the list of cell
    [j] are the candidates whose first eligible cell, in registry order, is
    [j]; and the per-cell list lengths of the channel grow in total by the
    number of accepted candidates, so they sum to that number when the lists
    were empty before the pass. *)
Theorem filter_chromosomes_partition (ps : list Point) (chromosome_type : string)
    (closeness : spec_float) (d d' : Detector) (accepted : list bool) :
  is_channel chromosome_type ->
  filter_chromosomes_accepted findContours pointPolygonTest ps chromosome_type
    closeness d = Returned accepted d' ->
  accepted = map (owned findContours pointPolygonTest closeness (areas d)) ps /\
  length (cells d') = length (cells d) /\
  (forall j c, cells d !! j = Some c ->
     exists c', cells d' !! j = Some c' /\
       chromosomes_of chromosome_type c'
       = chromosomes_of chromosome_type c
         ++ filter (fun p => owner findContours pointPolygonTest closeness
                               (areas d) p = Some j) ps) /\
  (forall p j,
     owner findContours pointPolygonTest closeness (areas d) p = Some j <->
     exists ma, areas d !! j = Some ma /\
       eligibleb findContours pointPolygonTest closeness p ma = true /\
       forall j' ma', areas d !! j' = Some ma' -> (j' < j)%nat ->
         eligibleb findContours pointPolygonTest closeness p ma' = false) /\
  total_of chromosome_type d' = total_of chromosome_type d + count_true accepted /\
  (total_of chromosome_type d = 0 ->
   total_of chromosome_type d' = count_true accepted).
Proof.
  intros Hty Hrun.
  pose proof (filter_chromosomes_accepted_run findContours pointPolygonTest ps
                chromosome_type closeness d) as H.
  rewrite Hrun in H. destruct H as [-> ->].
  destruct (assign_all_totals findContours pointPolygonTest chromosome_type
              closeness ps Hty (areas d) d eq_refl) as [Htot _].
  split; [reflexivity|]. split; [apply assign_all_length|].
  split; [|split; [|split]].
  - intros j c Hc.
    destruct (assign_all_cells findContours pointPolygonTest chromosome_type
                closeness (areas d) ps Hty d j c Hc) as (c' & Hc' & Hl & _).
    exists c'. split; assumption.
  - intros p j. apply owner_first.
  - exact Htot.
  - intros H0. rewrite Htot, H0. reflexivity.
Qed.

(** With no cell in the registry a pass accepts nothing and leaves the
    detector as it was. *)
Lemma filter_chromosomes_no_cells (ps : list Point) (chromosome_type : string)
    (closeness : spec_float) (d : Detector) :
  cells d = [] ->
  filter_chromosomes_accepted findContours pointPolygonTest ps chromosome_type
    closeness d = Returned (replicate (length ps) false) d.
Proof. intros Hd. now apply filter_loop_no_cells. Qed.

End AssignerTheorems.

Lemma accepted_point_is_inside_witness :
  cells Overlap.registered !! 0%nat = Some Overlap.inner_cell /\
  exists added,
    chromosomes_of "red" (add_red_chromosome Overlap.centre Overlap.inner_cell)
    = chromosomes_of "red" Overlap.inner_cell ++ added /\
    forall p, p ∈ added ->
      exists m contour rest,
        mask (masked_area Overlap.inner_cell) = mask_array m /\
        Overlap.findContours (inverted_channel m) = Some (contour :: rest) /\
        SFltb float_1 (Overlap.pointPolygonTest contour (rev p)) = true.
Proof.
  split; [reflexivity|].
  destruct (accepted_point_is_inside Overlap.findContours
              Overlap.pointPolygonTest [Overlap.centre] "red" float_1
              Overlap.registered 0 Overlap.inner_cell
              (add_red_chromosome Overlap.centre Overlap.inner_cell))
    as (added & Hl & Hin).
  - left. reflexivity.
  - reflexivity.
  - vm_compute. reflexivity.
  - exists added. split; [exact Hl|].
    intros p Hp.
    destruct (Hin p Hp) as (m & contour & rest & Hm & Hc & _ & _ & Hgt & _).
    exists m, contour, rest. split; [exact Hm|]. split; [exact Hc|].
    apply Hgt. reflexivity.
Defined.

Lemma filter_chromosomes_partition_witness :
  (exists c', cells (final_state
                       (filter_chromosomes_accepted Overlap.findContours
                          Overlap.pointPolygonTest
                          [Overlap.centre; Overlap.top_middle] "red" float_1
                          Overlap.registered)) !! 1%nat = Some c' /\
     chromosomes_of "red" c' = []) /\
  total_of "red"
    (final_state (filter_chromosomes_accepted Overlap.findContours
                    Overlap.pointPolygonTest
                    [Overlap.centre; Overlap.top_middle] "red"
                    float_1 Overlap.registered))
  = count_true [true; false].
Proof.
  destruct (filter_chromosomes_partition Overlap.findContours
              Overlap.pointPolygonTest [Overlap.centre; Overlap.top_middle] "red"
              float_1 Overlap.registered
              (final_state (filter_chromosomes_accepted Overlap.findContours
                              Overlap.pointPolygonTest
                              [Overlap.centre; Overlap.top_middle] "red" float_1
                              Overlap.registered))
              [true; false]) as (_ & _ & Hcells & _ & _ & Htot).
  - left. reflexivity.
  - vm_compute. reflexivity.
  - split; [|apply Htot; reflexivity].
    destruct (Hcells 1%nat Overlap.outer_cell eq_refl) as (c' & Hc' & Hl).
    exists c'. split; [exact Hc'|]. rewrite Hl. vm_compute. reflexivity.
Defined.

(** In the scene both cells are eligible for the middle point, and the pass
    gives it to the first one only. *)
Lemma overlap_first_cell_wins :
  eligibleb Overlap.findContours Overlap.pointPolygonTest float_1 Overlap.centre
    (masked_area Overlap.inner_cell) = true /\
  eligibleb Overlap.findContours Overlap.pointPolygonTest float_1 Overlap.centre
    (masked_area Overlap.outer_cell) = true /\
  filter_chromosomes_accepted Overlap.findContours Overlap.pointPolygonTest
    [Overlap.centre; Overlap.top_middle] "red" float_1 Overlap.registered
  = Returned [true; false]
      (set_RedChromosome (fun _ => 1)
         (set_cells (fun _ => [add_red_chromosome Overlap.centre Overlap.inner_cell;
                               Overlap.outer_cell])
            Overlap.registered)).
Proof. repeat split; vm_compute; reflexivity. Qed.

(** ** [detect_chromosomes] *)

Section DetectionFacts.
Context {Contour : Type}.
Variable GaussianBlur : Image -> nat * nat -> Q -> Image.
Variable findContours : Plane Z -> option (list Contour).
Variable pointPolygonTest : Contour -> Point -> spec_float.

Lemma sum_list_with_alter_same {A} (f : A -> nat) (g : A -> A) (l : list A) :
  (forall x, f (g x) = f x) ->
  forall j : nat, sum_list_with f (alter g j l) = sum_list_with f l.
Proof.
  intros Hfg. induction l as [|y l IH]; intros [|j]; cbn; try reflexivity.
  - now rewrite Hfg.
  - now rewrite IH.
Qed.

Lemma record_chromosome_other (ty ty' : string) (j : nat) (p : Point) (d : Detector) :
  is_channel ty -> is_channel ty' -> ty <> ty' ->
  total_of ty' (record_chromosome ty j p d) = total_of ty' d /\
  counter_of ty' (record_chromosome ty j p d) = counter_of ty' d.
Proof.
  intros [-> | ->] [-> | ->] Hne; try congruence;
    (split; [|reflexivity]); unfold total_of; cbn;
    now rewrite sum_list_with_alter_same.
Qed.

Lemma assign_all_other (ty ty' : string) (closeness : spec_float)
    (mas : list MaskedArray) (ps : list Point) :
  is_channel ty -> is_channel ty' -> ty <> ty' ->
  forall d : Detector,
  let d' := assign_all findContours pointPolygonTest ty closeness mas ps d in
  total_of ty' d' = total_of ty' d /\ counter_of ty' d' = counter_of ty' d.
Proof.
  intros Hty Hty' Hne. induction ps as [|p ps IH]; intros d; cbn zeta.
  - split; reflexivity.
  - rewrite assign_all_cons. destruct (IH (assign_one findContours pointPolygonTest
                                             ty closeness mas d p)) as [Ht Hc].
    rewrite Ht, Hc. unfold assign_one.
    destruct (owner _ _ _ _ _); [|split; reflexivity].
    now apply record_chromosome_other.
Qed.

Lemma detect_chromosomes_run (d d' : Detector) :
  detect_chromosomes GaussianBlur findContours pointPolygonTest d = Returned tt d' ->
  d' = assign_all findContours pointPolygonTest "green" float_1 (areas d)
         (channel_candidates GaussianBlur 1 (image d))
         (assign_all findContours pointPolygonTest "red" float_1 (areas d)
            (channel_candidates GaussianBlur 0 (image d)) (reset_counters d)).
Proof.
  unfold detect_chromosomes, filter_chromosomes.
  unfold mbind at 1, M_bind at 1, gets at 1.
  unfold mbind at 1, M_bind at 1, modify at 1.
  unfold mbind at 1, M_bind at 1, modify at 1.
  unfold mbind at 1, M_bind at 1.
  unfold mbind at 1, M_bind at 1.
  fold (channel_candidates GaussianBlur 0 (image d)). fold (channel_candidates GaussianBlur 1 (image d)).
  fold (reset_counters d).
  pose proof (filter_chromosomes_accepted_run findContours pointPolygonTest
                (channel_candidates GaussianBlur 0 (image d)) "red" float_1 (reset_counters d))
    as Hred.
  destruct (filter_chromosomes_accepted _ _ (channel_candidates GaussianBlur 0 (image d)) _ _ _)
    as [acc1 d1|e d1]; [|discriminate].
  destruct Hred as [-> _]. unfold mret at 1, M_ret at 1.
  unfold mbind at 1, M_bind at 1.
  pose proof (filter_chromosomes_accepted_run findContours pointPolygonTest
                (channel_candidates GaussianBlur 1 (image d)) "green" float_1
                (assign_all findContours pointPolygonTest "red" float_1
                   (areas (reset_counters d)) (channel_candidates GaussianBlur 0 (image d))
                   (reset_counters d)))
    as Hgreen.
  destruct (filter_chromosomes_accepted _ _ (channel_candidates GaussianBlur 1 (image d)) _ _ _)
    as [acc2 d2|e d2]; [|discriminate].
  destruct Hgreen as [-> _]. rewrite areas_assign_all.
  intros [= <-]. reflexivity.
Qed.

(** The counters after a call. They do not depend on their values before the
    call, and after [detect_chromosomes] returns each counter is the number
    of points that this call appended to the lists of its channel: the sum
    of the list lengths after the call minus the sum before it. The counter
    equals the sum of the list lengths when the lists were empty before the
    call. *)
Theorem detect_chromosomes_counters (d d' : Detector) :
  detect_chromosomes GaussianBlur findContours pointPolygonTest d = Returned tt d' ->
  (forall r g,
     detect_chromosomes GaussianBlur findContours pointPolygonTest
       (set_RedChromosome (fun _ => r) (set_GreenChromosome (fun _ => g) d))
     = Returned tt d') /\
  RedChromosome d' = red_total d' - red_total d /\
  GreenChromosome d' = green_total d' - green_total d /\
  (red_total d = 0 -> RedChromosome d' = red_total d') /\
  (green_total d = 0 -> GreenChromosome d' = green_total d').
Proof.
  intros Hrun. split; [intros r g; rewrite <- Hrun; now destruct d|].
  apply detect_chromosomes_run in Hrun.
  set (reds := channel_candidates GaussianBlur 0 (image d)) in Hrun.
  set (greens := channel_candidates GaussianBlur 1 (image d)) in Hrun.
  set (d1 := assign_all findContours pointPolygonTest "red" float_1 (areas d)
               reds (reset_counters d)) in Hrun.
  assert (Hred : is_channel "red") by (left; reflexivity).
  assert (Hgreen : is_channel "green") by (right; reflexivity).
  destruct (assign_all_totals findContours pointPolygonTest "red" float_1 reds
              Hred (areas d) (reset_counters d) eq_refl) as [Ht1 Hc1].
  destruct (assign_all_other "red" "green" float_1 (areas d) reds Hred Hgreen
              ltac:(discriminate) (reset_counters d)) as [Ht1' Hc1'].
  fold d1 in Ht1, Hc1, Ht1', Hc1'.
  destruct (assign_all_totals findContours pointPolygonTest "green" float_1 greens
              Hgreen (areas d) d1 (areas_assign_all _ _ _ _ _ _ _))
    as [Ht2 Hc2].
  destruct (assign_all_other "green" "red" float_1 (areas d) greens Hgreen Hred
              ltac:(discriminate) d1) as [Ht2' Hc2'].
  rewrite <- Hrun in Ht2, Hc2, Ht2', Hc2'.
  change (counter_of "red" d') with (RedChromosome d') in *.
  change (counter_of "green" d') with (GreenChromosome d') in *.
  change (total_of "red" d') with (red_total d') in *.
  change (total_of "green" d') with (green_total d') in *.
  change (total_of "red" (reset_counters d)) with (red_total d) in *.
  change (total_of "green" (reset_counters d)) with (green_total d) in *.
  change (counter_of "red" (reset_counters d)) with 0 in *.
  change (counter_of "green" (reset_counters d)) with 0 in *.
  lia.
Qed.

(** C10. With an empty registry a pass of the assigner, for any candidates,
    channel name and closeness, returns with no candidate accepted and the
    detector unchanged; [detect_chromosomes] returns with the registry still
    empty and both counters zero. *)
Theorem empty_registry_accepts_nothing (d : Detector) :
  cells d = [] ->
  (forall ps chromosome_type closeness,
     filter_chromosomes_accepted findContours pointPolygonTest ps chromosome_type
       closeness d = Returned (replicate (length ps) false) d) /\
  (forall ps chromosome_type closeness,
     filter_chromosomes findContours pointPolygonTest ps chromosome_type
       closeness d = Returned tt d) /\
  detect_chromosomes GaussianBlur findContours pointPolygonTest d
  = Returned tt {| image := image d; cells := [];
                   RedChromosome := 0; GreenChromosome := 0 |}.
Proof.
  intros Hd. split; [|split].
  - intros ps ty cl. now apply filter_chromosomes_no_cells.
  - intros ps ty cl. unfold filter_chromosomes, mbind, M_bind.
    now rewrite filter_chromosomes_no_cells.
  - unfold detect_chromosomes, filter_chromosomes.
    unfold mbind at 1, M_bind at 1, gets at 1.
    unfold mbind at 1, M_bind at 1, modify at 1.
    unfold mbind at 1, M_bind at 1, modify at 1.
    unfold mbind at 1, M_bind at 1.
    unfold mbind at 1, M_bind at 1.
    rewrite filter_chromosomes_no_cells by exact Hd.
    unfold mret at 1, M_ret at 1.
    unfold mbind at 1, M_bind at 1.
    rewrite filter_chromosomes_no_cells by exact Hd.
    unfold mret, M_ret. destruct d; simpl in *; now subst.
Qed.

End DetectionFacts.

Lemma detect_chromosomes_counters_witness :
  RedChromosome
    (final_state (detect_chromosomes Scenario.GaussianBlur Overlap.findContours
                    Overlap.pointPolygonTest Overlap.registered)) = 1.
Proof.
  refine (eq_trans (proj1 (proj2 (proj2 (proj2
    (detect_chromosomes_counters Scenario.GaussianBlur Overlap.findContours
       Overlap.pointPolygonTest Overlap.registered _ _)))) _) _).
  - vm_compute. reflexivity.
  - reflexivity.
  - reflexivity.
Defined.

Lemma empty_registry_accepts_nothing_witness :
  detect_chromosomes Scenario.GaussianBlur Scenario.findContours
    Scenario.pointPolygonTest Scenario.fresh
  = Returned tt Scenario.fresh.
Proof.
  exact (proj2 (proj2 (empty_registry_accepts_nothing Scenario.GaussianBlur
                         Scenario.findContours Scenario.pointPolygonTest
                         Scenario.fresh eq_refl))).
Defined.

(** C4. Two calls in a row on the registry of the scene: the first
    [detect_chromosomes] returns with the red counter and the red list lengths
    both at 1; a second call on the detector it produced returns with the
    counter at 1 again while the lists hold 2 points, the accepted point
    having been appended a second time. *)
Theorem detect_chromosomes_twice_counter_differs :
  detect_chromosomes Scenario.GaussianBlur Overlap.findContours
    Overlap.pointPolygonTest Overlap.registered
  = Returned tt Overlap.detected /\
  RedChromosome Overlap.detected = 1 /\ red_total Overlap.detected = 1 /\
  exists d2,
    detect_chromosomes Scenario.GaussianBlur Overlap.findContours
      Overlap.pointPolygonTest Overlap.detected = Returned tt d2 /\
    RedChromosome d2 = 1 /\ red_total d2 = 2 /\
    map red_chromosomes (cells d2)
    = [[Overlap.centre; Overlap.centre]; []].
Proof.
  split; [vm_compute; reflexivity|]. split; [reflexivity|].
  split; [reflexivity|].
  eexists. split; [vm_compute; reflexivity|].
  repeat split; vm_compute; reflexivity.
Qed.

(** ** Unsharp masking and [rgba2rgb] *)

Lemma Qmaximum_0_nonneg (x : Q) : (0 <= Qmaximum x 0)%Q.
Proof.
  unfold Qmaximum. destruct (Qle_bool x 0) eqn:E; [apply Qle_refl|].
  apply Qlt_le_weak, Qnot_le_lt. intros H. apply Qle_bool_iff in H. congruence.
Qed.

Lemma Qminimum_255_range (x : Q) :
  (0 <= x)%Q -> (0 <= Qminimum x 255 <= 255)%Q.
Proof.
  intros Hx. unfold Qminimum. destruct (Qle_bool x 255) eqn:E.
  - apply Qle_bool_iff in E. split; assumption.
  - split; [discriminate | apply Qle_refl].
Qed.

Lemma round_half_even_range (x : Q) :
  (0 <= x <= 255)%Q -> 0 <= round_half_even x <= 255.
Proof.
  intros [H0 H255]. unfold round_half_even.
  pose proof (Qfloor_resp_le _ _ H0) as Hf0.
  pose proof (Qfloor_resp_le _ _ H255) as Hf255.
  change 0%Q with (inject_Z 0) in Hf0. change 255%Q with (inject_Z 255) in Hf255.
  rewrite Qfloor_Z in Hf0, Hf255.
  assert (Hlt : Qfloor x = 255 -> (x - inject_Z (Qfloor x) ?= 1 # 2)%Q = Lt).
  { intros ->. apply Qlt_alt. apply Qle_lt_trans with 0%Q; [|reflexivity].
    unfold Qle, Qminus, Qplus, Qopp, inject_Z in *. simpl in *. lia. }
  destruct (x - inject_Z (Qfloor x) ?= 1 # 2)%Q eqn:E.
  - destruct (Z.even (Qfloor x)); [lia|].
    destruct (Z.eq_dec (Qfloor x) 255) as [H|H]; [specialize (Hlt H); congruence | lia].
  - lia.
  - destruct (Z.eq_dec (Qfloor x) 255) as [H|H]; [specialize (Hlt H); congruence | lia].
Qed.

Lemma sharpen_sample_clamped (amount : Q) (image blurred : Z) :
  sharpen_sample amount image blurred
  = round_half_even
      (Qminimum (Qmaximum ((amount + 1) * inject_Z image
                           - amount * inject_Z blurred)%Q 0) 255) /\
  is_uint8 (sharpen_sample amount image blurred).
Proof.
  unfold sharpen_sample, astype_uint8, is_uint8.
  set (x := ((amount + 1) * inject_Z image - amount * inject_Z blurred)%Q).
  pose proof (round_half_even_range _
                (Qminimum_255_range _ (Qmaximum_0_nonneg x))) as H.
  rewrite Z.mod_small by lia. split; [reflexivity | lia].
Qed.

Lemma Forall_zip_with2 {A B C} (P : A -> Prop) (Q' : B -> Prop) (R : C -> Prop)
    (f : A -> B -> C) :
  (forall x y, P x -> Q' y -> R (f x y)) ->
  forall l k, Forall P l -> Forall Q' k -> Forall R (zip_with f l k).
Proof.
  intros Hf l k Hl. revert k.
  induction Hl as [|x l Hx Hl IH]; intros k Hk; [constructor|].
  destruct Hk as [|y k Hy Hk]; constructor; auto.
Qed.

Lemma Forall3d_zip_with {A B C} (P : A -> Prop) (Q' : B -> Prop) (R : C -> Prop)
    (f : A -> B -> C) (a : list (Plane A)) (b : list (Plane B)) :
  (forall x y, P x -> Q' y -> R (f x y)) ->
  Forall (Forall (Forall P)) a -> Forall (Forall (Forall Q')) b ->
  Forall (Forall (Forall R)) (zip_with3d f a b).
Proof.
  intros Hf. unfold zip_with3d.
  apply Forall_zip_with2. intros ? ?. apply Forall_zip_with2.
  intros ? ?. now apply Forall_zip_with2.
Qed.

Lemma Forall3d_True {A} (a : list (Plane A)) :
  Forall (Forall (Forall (fun _ => True))) a.
Proof. repeat (apply Forall_forall; intros ? _). exact I. Qed.

Section UnsharpFacts.
Variable GaussianBlur : Image -> nat * nat -> Q -> Image.

(** C6. The output of the unsharp mask is a [uint8] image, every sample in
    [0, 255]; the sharpened sample is the rounding of the combination clamped
    to [0, 255], so the cast to [uint8] never wraps; and with [threshold = 0]
    (or below) the output is the sharpened array, every sample of it. *)
Theorem unsharp_mask_range (image : Image) (kernel_size : nat * nat)
    (sigma amount : Q) (threshold : Z) :
  uint8_image image ->
  uint8_image (unsharp_mask GaussianBlur image kernel_size sigma amount threshold) /\
  (forall i b : Z,
     sharpen_sample amount i b
     = round_half_even
         (Qminimum (Qmaximum ((amount + 1) * inject_Z i
                              - amount * inject_Z b)%Q 0) 255) /\
     0 <= sharpen_sample amount i b <= 255) /\
  (threshold <= 0 ->
   unsharp_mask GaussianBlur image kernel_size sigma amount threshold
   = zip_with3d (sharpen_sample amount) image
       (GaussianBlur image kernel_size sigma)).
Proof.
  intros Himg.
  assert (Hsharp : uint8_image (zip_with3d (sharpen_sample amount) image
                                  (GaussianBlur image kernel_size sigma))).
  { apply (Forall3d_zip_with (fun _ => True) (fun _ => True));
      [|apply Forall3d_True|apply Forall3d_True].
    intros x y _ _. apply sharpen_sample_clamped. }
  split; [|split].
  - unfold unsharp_mask. destruct (0 <? threshold); [|exact Hsharp].
    unfold copyto.
    apply (Forall3d_zip_with (fun ds => is_uint8 (fst ds) /\ is_uint8 (snd ds))
             (fun _ => True)).
    + intros [dst src] w [Hd Hs] _. now destruct w.
    + apply (Forall3d_zip_with is_uint8 is_uint8); [|exact Hsharp|exact Himg].
      intros x y Hx Hy. split; assumption.
    + apply Forall3d_True.
  - intros i b. destruct (sharpen_sample_clamped amount i b) as [He Hr].
    split; [exact He|]. unfold is_uint8 in Hr. lia.
  - intros Hth. unfold unsharp_mask.
    destruct (0 <? threshold) eqn:E; [|reflexivity].
    apply Z.ltb_lt in E. lia.
Qed.
End UnsharpFacts.

Lemma low_contrast_sample_wraps (threshold i b : Z) :
  is_uint8 i -> is_uint8 b -> i < b -> threshold <= 256 - (b - i) ->
  low_contrast_sample threshold i b = false.
Proof.
  unfold is_uint8, low_contrast_sample, uint8_sub. intros Hi Hb Hlt Hth.
  replace ((i - b) mod 256) with (i - b + 256).
  - apply Z.ltb_ge. lia.
  - apply Z.mod_unique with (-1); lia.
Qed.

Lemma low_contrast_sample_exact (threshold i b : Z) :
  is_uint8 i -> is_uint8 b -> b <= i ->
  low_contrast_sample threshold i b = (Z.abs (i - b) <? threshold).
Proof.
  unfold is_uint8, low_contrast_sample, uint8_sub. intros Hi Hb Hle.
  now rewrite Z.mod_small by lia.
Qed.

(** C3 fails on this input: the centre sample 10 has blur 58, a true
    difference of 48 below the threshold 100, yet it is not reverted to 10
    but keeps the sharpened value 0, because the [uint8] difference wraps to
    208. *)
Theorem unsharp_mask_dark_pixel_not_reverted :
  Scenario.GaussianBlur Scenario.dim_image (5, 5)%nat 5
  = map (map (replicate 3))
      [ [53; 56; 56; 56; 53];
        [56; 58; 58; 58; 56];
        [56; 58; 58; 58; 56];
        [56; 58; 58; 58; 56];
        [53; 56; 56; 56; 53] ] /\
  Z.abs (10 - 58) < 100 /\
  low_contrast_sample 100 10 58 = false /\
  unsharp_mask Scenario.GaussianBlur Scenario.dim_image (5, 5)%nat 5 5 100
  = Scenario.framed 60 0.
Proof. repeat split; vm_compute; reflexivity. Qed.

(** *** Single precision *)

Lemma round_half_even_error (y : Q) :
  (inject_Z (round_half_even y) - y <= 1 # 2)%Q /\
  (y - inject_Z (round_half_even y) <= 1 # 2)%Q.
Proof.
  unfold round_half_even.
  pose proof (Qfloor_le y) as Hlo. pose proof (Qlt_floor y) as Hhi.
  rewrite inject_Z_plus in Hhi. change (inject_Z 1) with 1%Q in Hhi.
  destruct (y - inject_Z (Qfloor y) ?= 1 # 2)%Q eqn:E.
  - apply Qeq_alt in E.
    destruct (Z.even (Qfloor y)); [|rewrite inject_Z_plus; change (inject_Z 1) with 1%Q];
      split; lra.
  - apply Qlt_alt in E. split; lra.
  - apply Qgt_alt in E. rewrite inject_Z_plus. change (inject_Z 1) with 1%Q.
    split; lra.
Qed.

Lemma Qpower_2_pos (e : Z) : (0 < 2 ^ e)%Q.
Proof. apply Qpower_0_lt. reflexivity. Qed.

Lemma binade_le (x : Q) : ~ (x == 0)%Q -> (2 ^ binade x <= Qabs x)%Q.
Proof.
  intros Hx. unfold binade.
  set (n := Z.abs (Qnum x)). set (d := Zpos (Qden x)).
  destruct (Qle_bool (2 ^ (Z.log2 n - Z.log2 d)) (Qabs x)) eqn:E;
    [now apply Qle_bool_iff in E|].
  assert (Hn : 0 < n).
  { subst n. destruct x as [[|p|p] q]; cbn; try lia. destruct Hx. reflexivity. }
  assert (Hd : 0 < d) by (subst d; lia).
  pose proof (Z.log2_spec n Hn) as [Hn1 _].
  pose proof (Z.log2_spec d Hd) as [_ Hd2].
  pose proof (Z.log2_nonneg n) as Hln. pose proof (Z.log2_nonneg d) as Hld.
  replace (Z.log2 n - Z.log2 d - 1) with (Z.log2 n - Z.succ (Z.log2 d)) by lia.
  rewrite Qpower_minus by discriminate.
  rewrite <- !(Zpower_Qpower 2) by lia.
  assert (Habs : (Qabs x == inject_Z n / inject_Z d)%Q).
  { destruct x as [a q]. unfold Qabs, n, d. cbn [Qnum Qden].
    rewrite (Qmake_Qdiv (Z.abs a) q). reflexivity. }
  rewrite Habs.
  apply Qle_shift_div_l.
  { change 0%Q with (inject_Z 0). rewrite <- Zlt_Qlt. lia. }
  unfold Qdiv. rewrite <- Qmult_assoc, (Qmult_comm (/ _)), Qmult_assoc.
  apply Qle_shift_div_r.
  { change 0%Q with (inject_Z 0). rewrite <- Zlt_Qlt. lia. }
  rewrite <- !inject_Z_mult, <- Zle_Qle. nia.
Qed.

Lemma round_float32_error (x : Q) :
  (Qabs (round_float32 x - x) <= Qabs x * eps32)%Q.
Proof.
  unfold round_float32. destruct (Qeq_bool x 0) eqn:E.
  - apply Qeq_bool_iff in E. rewrite E. cbn. discriminate.
  - assert (Hx : ~ (x == 0)%Q) by (intros H; apply Qeq_bool_iff in H; congruence).
    rewrite Qred_correct.
    set (u := (2 ^ (binade x - 23))%Q).
    assert (Hu : (0 < u)%Q) by apply Qpower_2_pos.
    assert (Hu2 : (u * (16777216 # 2) <= Qabs x)%Q).
    { pose proof (binade_le x Hx) as H. unfold u.
      rewrite Qpower_minus by discriminate.
      change (2 ^ 23)%Q with 8388608%Q.
      assert (H0 : (0 < 2 ^ binade x)%Q) by apply Qpower_2_pos.
      setoid_replace (2 ^ binade x / 8388608 * (16777216 # 2))%Q
        with (2 ^ binade x)%Q using relation Qeq by field.
      exact H. }
    destruct (round_half_even_error (x / u)) as [H1 H2].
    set (r := inject_Z (round_half_even (x / u))) in *.
    assert (Hxu : (x == (x / u) * u)%Q) by (field; lra).
    apply Qabs_Qle_condition. unfold eps32.
    split.
    + apply Qle_trans with (- (u * (1 # 2)))%Q; [lra|].
      setoid_replace (r * u - x)%Q with ((r - x / u) * u)%Q using relation Qeq by (field; lra).
      nra.
    + apply Qle_trans with (u * (1 # 2))%Q; [|lra].
      setoid_replace (r * u - x)%Q with ((r - x / u) * u)%Q using relation Qeq by (field; lra).
      nra.
Qed.

Lemma near_round (x B : Q) :
  (Qabs x <= B)%Q -> near (round_float32 x) x (B * eps32).
Proof.
  intros H. unfold near. eapply Qle_trans; [apply round_float32_error|].
  apply Qmult_le_compat_r; [exact H | discriminate].
Qed.

Lemma near_trans (x y z d1 d2 : Q) :
  near x y d1 -> near y z d2 -> near x z (d1 + d2).
Proof.
  unfold near. intros H1 H2.
  apply Qabs_Qle_condition in H1, H2. apply Qabs_Qle_condition. split; lra.
Qed.

Lemma near_weaken (x y d d' : Q) : near x y d -> (d <= d')%Q -> near x y d'.
Proof. unfold near. intros H Hd. lra. Qed.

Lemma near_bound (x y d Y : Q) :
  near x y d -> (Qabs y <= Y)%Q -> (Qabs x <= Y + d)%Q.
Proof.
  unfold near. intros H1 H2.
  apply Qabs_Qle_condition in H1, H2. apply Qabs_Qle_condition. split; lra.
Qed.

Lemma near_add (x x' y y' d d' : Q) :
  near x x' d -> near y y' d' -> near (x + y) (x' + y') (d + d').
Proof.
  unfold near. intros H1 H2.
  apply Qabs_Qle_condition in H1, H2. apply Qabs_Qle_condition. split; lra.
Qed.

Lemma near_sub_l (k x x' d : Q) : near x x' d -> near (k - x) (k - x') d.
Proof.
  unfold near. intros H1.
  apply Qabs_Qle_condition in H1. apply Qabs_Qle_condition. split; lra.
Qed.

Lemma near_div_255 (x x' d : Q) :
  near x x' d -> near (x / 255) (x' / 255) (d * (1 # 255)).
Proof.
  unfold near. intros H1.
  apply Qabs_Qle_condition in H1. apply Qabs_Qle_condition.
  setoid_replace (x / 255 - x' / 255)%Q with ((x - x') * (1 # 255))%Q using relation Qeq by field.
  split; lra.
Qed.

Lemma near_mul (x x' y y' dx dy X Y : Q) :
  near x x' dx -> near y y' dy -> (Qabs x' <= X)%Q -> (Qabs y <= Y)%Q ->
  near (x * y) (x' * y') (dx * Y + X * dy).
Proof.
  unfold near. intros H1 H2 H3 H4.
  apply Qabs_Qle_condition in H1, H2, H3, H4. apply Qabs_Qle_condition.
  destruct H1, H2, H3, H4.
  setoid_replace (x * y - x' * y')%Q with ((x - x') * y + x' * (y - y'))%Q using relation Qeq by ring.
  split; nra.
Qed.

Lemma Qabs_inject_uint8 (v : Z) : is_uint8 v -> (Qabs (inject_Z v) <= 255)%Q.
Proof.
  intros [H0 H1]. apply Qabs_Qle_condition.
  change 255%Q with (inject_Z 255). change (- inject_Z 255)%Q with (inject_Z (-255)).
  rewrite <- !Zle_Qle. lia.
Qed.

Lemma composite_near (c alpha bg : Z) :
  is_uint8 c -> is_uint8 alpha -> is_uint8 bg ->
  let a := float32_div (float32 alpha) 255 in
  near (float32_add (float32_mul (float32 c) a)
          (float32_mul (float32_sub 1 a) (float32 bg)))
       (inject_Z (c * alpha + bg * (255 - alpha)) / 255) (1 # 2048).
Proof.
  intros Hc Ha Hg. cbn zeta.
  unfold float32_add, float32_mul, float32_sub, float32_div, float32.
  pose proof (Qabs_inject_uint8 c Hc) as Bc.
  pose proof (Qabs_inject_uint8 alpha Ha) as Ba.
  pose proof (Qabs_inject_uint8 bg Hg) as Bg.
  set (c' := inject_Z c) in *. set (al := inject_Z alpha) in *.
  set (g' := inject_Z bg) in *.
  set (A := (al / 255)%Q).
  assert (BA : (Qabs A <= 1)%Q).
  { unfold A. apply Qabs_Qle_condition in Ba. apply Qabs_Qle_condition.
    setoid_replace (al / 255)%Q with (al * (1 # 255))%Q using relation Qeq by field. split; lra. }
  assert (BA1 : (Qabs (1 - A) <= 1)%Q).
  { unfold A, al. destruct Ha as [Ha0 Ha1]. apply Qabs_Qle_condition.
    setoid_replace (1 - inject_Z alpha / 255)%Q
      with ((255 - inject_Z alpha) * (1 # 255))%Q using relation Qeq by field.
    assert (H0 : (0 <= inject_Z alpha)%Q)
      by (change 0%Q with (inject_Z 0); rewrite <- Zle_Qle; lia).
    assert (H1 : (inject_Z alpha <= 255)%Q)
      by (change 255%Q with (inject_Z 255); rewrite <- Zle_Qle; lia).
    split; lra. }
  (* a0 = float32(alpha) *)
  assert (N0 : near (round_float32 al) al (255 * eps32))
    by (apply near_round; exact Ba).
  (* a = float32(a0 / 255) *)
  pose proof (near_div_255 _ _ _ N0) as Nx.
  fold A in Nx.
  assert (Bx : (Qabs (round_float32 al / 255) <= 2)%Q).
  { eapply Qle_trans; [exact (near_bound _ _ _ _ Nx BA)|]. unfold eps32. lra. }
  assert (Na : near (round_float32 (round_float32 al / 255)) A (4 * eps32)).
  { eapply near_weaken; [eapply near_trans; [apply near_round; exact Bx|exact Nx]|].
    unfold eps32. lra. }
  set (a := round_float32 (round_float32 al / 255)) in *.
  assert (Baa : (Qabs a <= 2)%Q).
  { eapply Qle_trans; [exact (near_bound _ _ _ _ Na BA)|]. unfold eps32. lra. }
  (* t1 = float32(float32(c) * a) *)
  assert (Nc : near (round_float32 c') c' (255 * eps32))
    by (apply near_round; exact Bc).
  pose proof (near_mul _ _ _ _ _ _ _ _ Nc Na Bc Baa) as Nx1.
  assert (BcA : (Qabs (c' * A) <= 255)%Q).
  { rewrite Qabs_Qmult. setoid_replace 255%Q with (255 * 1)%Q using relation Qeq by ring.
    apply Qmult_le_compat_nonneg; split; try apply Qabs_nonneg; assumption. }
  assert (Bx1 : (Qabs (round_float32 c' * a) <= 256)%Q).
  { eapply Qle_trans; [exact (near_bound _ _ _ _ Nx1 BcA)|]. unfold eps32. lra. }
  assert (Nt1 : near (round_float32 (round_float32 c' * a)) (c' * A)
                  (1788 * eps32)).
  { eapply near_weaken; [eapply near_trans; [apply near_round; exact Bx1|exact Nx1]|].
    unfold eps32. lra. }
  (* b = float32(1 - a) *)
  pose proof (near_sub_l 1 _ _ _ Na) as Ny.
  assert (By : (Qabs (1 - a) <= 2)%Q).
  { eapply Qle_trans; [exact (near_bound _ _ _ _ Ny BA1)|]. unfold eps32. lra. }
  assert (Nb : near (round_float32 (1 - a)) (1 - A) (6 * eps32)).
  { eapply near_weaken; [eapply near_trans; [apply near_round; exact By|exact Ny]|].
    unfold eps32. lra. }
  (* t2 = float32(b * float32(bg)) *)
  assert (Ng : near (round_float32 g') g' (255 * eps32))
    by (apply near_round; exact Bg).
  assert (Bg0 : (Qabs (round_float32 g') <= 256)%Q).
  { eapply Qle_trans; [exact (near_bound _ _ _ _ Ng Bg)|]. unfold eps32. lra. }
  pose proof (near_mul _ _ _ _ _ _ _ _ Nb Ng BA1 Bg0) as Nx2.
  assert (BAg : (Qabs ((1 - A) * g') <= 255)%Q).
  { rewrite Qabs_Qmult. setoid_replace 255%Q with (1 * 255)%Q using relation Qeq by ring.
    apply Qmult_le_compat_nonneg; split; try apply Qabs_nonneg; assumption. }
  assert (Bx2 : (Qabs (round_float32 (1 - a) * round_float32 g') <= 256)%Q).
  { eapply Qle_trans; [exact (near_bound _ _ _ _ Nx2 BAg)|]. unfold eps32. lra. }
  assert (Nt2 : near (round_float32 (round_float32 (1 - a) * round_float32 g'))
                  ((1 - A) * g') (2048 * eps32)).
  { eapply near_weaken; [eapply near_trans; [apply near_round; exact Bx2|exact Nx2]|].
    unfold eps32. lra. }
  (* the sum *)
  pose proof (near_add _ _ _ _ _ _ Nt1 Nt2) as Nz.
  assert (Bsum : (Qabs (c' * A + (1 - A) * g') <= 510)%Q).
  { eapply Qle_trans; [apply Qabs_triangle|]. lra. }
  assert (Bz : (Qabs (round_float32 (round_float32 c' * a)
                      + round_float32 (round_float32 (1 - a) * round_float32 g'))
                <= 512)%Q).
  { eapply Qle_trans; [exact (near_bound _ _ _ _ Nz Bsum)|]. unfold eps32. lra. }
  assert (E : (inject_Z (c * alpha + bg * (255 - alpha)) / 255
               == c' * A + (1 - A) * g')%Q).
  { unfold A, c', al, g'. unfold Z.sub.
    rewrite !inject_Z_plus, !inject_Z_mult, inject_Z_plus, inject_Z_opp.
    change (inject_Z 255) with 255%Q. field. }
  unfold near. rewrite E.
  eapply near_weaken; [eapply near_trans; [apply near_round; exact Bz|exact Nz]|].
  unfold eps32. lra.
Qed.

Lemma Qfloor_eq (s : Q) (k : Z) :
  (inject_Z k <= s)%Q -> (s < inject_Z k + 1)%Q -> Qfloor s = k.
Proof.
  intros H1 H2.
  pose proof (Qfloor_le s) as Hlo. pose proof (Qlt_floor s) as Hhi.
  rewrite inject_Z_plus in Hhi. change (inject_Z 1) with 1%Q in Hhi.
  assert (A : (inject_Z (Qfloor s) < inject_Z (k + 1))%Q)
    by (rewrite inject_Z_plus; change (inject_Z 1) with 1%Q; lra).
  assert (B : (inject_Z k < inject_Z (Qfloor s + 1))%Q)
    by (rewrite inject_Z_plus; change (inject_Z 1) with 1%Q; lra).
  rewrite <- Zlt_Qlt in A, B. lia.
Qed.

Lemma Qceiling_eq (s : Q) (k : Z) :
  (inject_Z k - 1 < s)%Q -> (s <= inject_Z k)%Q -> Qceiling s = k.
Proof.
  intros H1 H2. unfold Qceiling.
  rewrite (Qfloor_eq (- s) (- k)); [lia| |]; rewrite inject_Z_opp; lra.
Qed.

Lemma float_to_uint8_near (n : Z) (s : Q) :
  0 <= n <= 65025 ->
  near s (inject_Z n / 255) (1 # 2048) ->
  float_to_uint8 s = n / 255 \/
  (n mod 255 = 0 /\ 0 < n /\ float_to_uint8 s = n / 255 - 1).
Proof.
  intros Hn Hs. unfold near in Hs. apply Qabs_Qle_condition in Hs.
  pose proof (Z.div_mod n 255 ltac:(lia)) as Hdm.
  pose proof (Z.mod_pos_bound n 255 ltac:(lia)) as Hr.
  set (f := n / 255) in *. set (r := n mod 255) in *.
  assert (Hf : 0 <= f <= 255) by (subst f; split;
    [apply Z.div_pos; lia | apply Z.div_le_upper_bound; lia]).
  assert (E : (inject_Z n / 255 == inject_Z f + inject_Z r * (1 # 255))%Q).
  { rewrite Hdm, inject_Z_plus, inject_Z_mult. change (inject_Z 255) with 255%Q.
    field. }
  rewrite E in Hs. destruct Hs as [Hlo Hhi].
  assert (Hr0 : (0 <= inject_Z r)%Q)
    by (change 0%Q with (inject_Z 0); rewrite <- Zle_Qle; lia).
  assert (Hr1 : (inject_Z r <= 254)%Q)
    by (change 254%Q with (inject_Z 254); rewrite <- Zle_Qle; lia).
  assert (Hf0 : (0 <= inject_Z f)%Q)
    by (change 0%Q with (inject_Z 0); rewrite <- Zle_Qle; lia).
  unfold float_to_uint8, astype_uint8.
  destruct (Z.eq_dec r 0) as [Hz|Hnz].
  - rewrite Hz in *. change (inject_Z 0) with 0%Q in *.
    destruct (Qlt_le_dec s (inject_Z f)) as [Hlt|Hge].
    + destruct (Z.eq_dec f 0) as [Hf'|Hf'].
      * left. rewrite Hf' in *. change (inject_Z 0) with 0%Q in *.
        assert (Hb : Qle_bool 0 s = false).
        { destruct (Qle_bool 0 s) eqn:Eb; [|reflexivity].
          apply Qle_bool_iff in Eb. lra. }
        rewrite Hb, (Qceiling_eq s 0); [reflexivity| |];
          change (inject_Z 0) with 0%Q; lra.
      * right. split; [reflexivity|]. split; [lia|].
        assert (Hf1 : (1 <= inject_Z f)%Q)
          by (change 1%Q with (inject_Z 1); rewrite <- Zle_Qle; lia).
        assert (Hb : Qle_bool 0 s = true) by (apply Qle_bool_iff; lra).
        rewrite Hb, (Qfloor_eq s (f - 1)).
        -- apply Z.mod_small. lia.
        -- unfold Z.sub. rewrite inject_Z_plus, inject_Z_opp.
           change (inject_Z 1) with 1%Q. lra.
        -- unfold Z.sub. rewrite inject_Z_plus, inject_Z_opp.
           change (inject_Z 1) with 1%Q. lra.
    + left.
      assert (Hb : Qle_bool 0 s = true) by (apply Qle_bool_iff; lra).
      rewrite Hb, (Qfloor_eq s f); [apply Z.mod_small; lia | lra | lra].
  - left.
    assert (Hr2 : (1 <= inject_Z r)%Q)
      by (change 1%Q with (inject_Z 1); rewrite <- Zle_Qle; lia).
    assert (Hb : Qle_bool 0 s = true) by (apply Qle_bool_iff; lra).
    rewrite Hb, (Qfloor_eq s f); [apply Z.mod_small; lia | lra | lra].
Qed.

(** Each sample that [rgba2rgb] computes is the blend of its colour and the
    background, for [uint8] operands. *)
Lemma composite_sample_blends (c alpha bg : Z) :
  is_uint8 c -> is_uint8 alpha -> is_uint8 bg ->
  blends c alpha bg (composite_sample c alpha bg).
Proof.
  intros Hc Ha Hg. unfold blends, composite_sample. cbn zeta.
  apply float_to_uint8_near; [|now apply composite_near].
  unfold is_uint8 in *. nia.
Qed.

Lemma round_float32_zero (x : Q) : (x == 0)%Q -> round_float32 x = 0%Q.
Proof.
  intros E. unfold round_float32.
  apply Qeq_bool_iff in E. now rewrite E.
Qed.

Lemma forallb_range (P : Z -> bool) (n : nat) :
  forallb P (range n) = true ->
  forall v, 0 <= v < Z.of_nat n -> P v = true.
Proof.
  intros H v Hv. rewrite forallb_forall in H. apply H.
  unfold range. apply in_map_iff. exists (Z.to_nat v).
  split; [lia|]. apply in_seq. lia.
Qed.

Lemma composite_sample_transparent (c bg : Z) :
  is_uint8 bg -> composite_sample c 0 bg = bg.
Proof.
  intros Hbg. unfold composite_sample.
  change (float32_div (float32 0) 255) with 0%Q.
  unfold float32_mul at 1.
  rewrite (round_float32_zero (float32 c * 0)) by ring.
  change (float32_sub 1 0) with 1%Q.
  apply Z.eqb_eq.
  apply (forallb_range
           (fun bg => float_to_uint8 (float32_add 0 (float32_mul 1 (float32 bg)))
                      =? bg) 256); [vm_compute; reflexivity | exact Hbg].
Qed.

Lemma composite_sample_opaque (c bg : Z) :
  is_uint8 c -> composite_sample c 255 bg = c.
Proof.
  intros Hc. unfold composite_sample.
  change (float32_div (float32 255) 255) with 1%Q.
  change (float32_sub 1 1) with 0%Q.
  unfold float32_mul at 2.
  rewrite (round_float32_zero (0 * float32 bg)) by ring.
  apply Z.eqb_eq.
  apply (forallb_range
           (fun c => float_to_uint8 (float32_add (float32_mul (float32 c) 1) 0)
                     =? c) 256); [vm_compute; reflexivity | exact Hc].
Qed.

(** Single precision does fall short of a whole blend: half-transparent black
    on white is 126, where the exact blend is 127. *)
Lemma composite_sample_falls_short :
  composite_sample 0 128 255 = 126 /\ (0 * 128 + 255 * (255 - 128)) / 255 = 127.
Proof. split; vm_compute; reflexivity. Qed.

(** The rounding on rationals gives what the Standard Library's IEEE 754
    binary32 operations give, on a grid of operands. *)
Lemma composite_sample_binary32_grid :
  forallb (fun c => forallb (fun alpha => forallb (fun bg =>
      composite_sample (17 * c) (17 * alpha) (17 * bg)
      =? composite_sample_binary32 (17 * c) (17 * alpha) (17 * bg))
    (range 16)) (range 16)) (range 16) = true.
Proof. vm_compute. reflexivity. Qed.

Lemma map2d_ext_Forall {A B} (P : A -> Prop) (f g : A -> B) (a : Plane A) :
  (forall x, P x -> f x = g x) -> Forall (Forall P) a -> map2d f a = map2d g a.
Proof.
  intros Hfg Ha. unfold map2d. apply map_ext_Forall.
  eapply Forall_impl; [exact Ha|]. intros row Hrow. simpl.
  apply map_ext_Forall. eapply Forall_impl; [exact Hrow|]. exact Hfg.
Qed.

Lemma Forall2_map2d {A B} (P : A -> Prop) (R' : A -> B -> Prop) (f : A -> B)
    (a : Plane A) :
  (forall x, P x -> R' x (f x)) -> Forall (Forall P) a ->
  Forall2 (Forall2 R') a (map2d f a).
Proof.
  intros Hf Ha. unfold map2d.
  induction Ha as [|row rows Hrow _ IH]; constructor; [|exact IH].
  induction Hrow as [|x xs Hx _ IHx]; constructor; auto.
Qed.

Lemma nth_uint8 (px : list Z) (k : nat) :
  Forall is_uint8 px -> is_uint8 (nth k px 0).
Proof.
  intros Hpx. destruct (nth_in_or_default k px 0) as [Hin| ->];
    [|unfold is_uint8; lia].
  rewrite Forall_forall in Hpx. apply Hpx. now apply list_elem_of_In.
Qed.

(** C8. [rgba2rgb] returns a 3-channel input as it is. From a 4-channel
    [uint8] input and a [uint8] background it returns an image of the same
    rows and columns whose pixels have three samples, each the alpha blend
    [(c alpha + bg (255 - alpha)) / 255] of the colour sample and the
    background sample, cut to an integer (or one less where the blend is a
    whole number, as single precision decides). A fully transparent input
    becomes the solid background colour, white by default. An input with at
    least one pixel and a channel count other than 3 and 4 raises the
    assertion error that names the 4 channels. *)
Theorem rgba2rgb_spec {S} (rgba : Image) (R G B : Z) (s : S) :
  let ch := snd (shape3 rgba) in
  (ch = 3%nat -> rgba2rgb rgba (R, G, B) s = Returned rgba s) /\
  (ch = 4%nat -> uint8_image rgba -> is_uint8 R -> is_uint8 G -> is_uint8 B ->
   exists rgb,
     rgba2rgb rgba (R, G, B) s = Returned rgb s /\
     Forall2 (Forall2 (composited R G B)) rgba rgb) /\
  (ch = 4%nat -> transparent rgba ->
   is_uint8 R -> is_uint8 G -> is_uint8 B ->
   rgba2rgb rgba (R, G, B) s = Returned (map2d (fun _ => [R; G; B]) rgba) s) /\
  (ch = 4%nat -> transparent rgba ->
   rgba2rgb rgba default_background s
   = Returned (map2d (fun _ => [255; 255; 255]) rgba) s) /\
  ((0 < length rgba)%nat -> (0 < length (hd [] rgba))%nat ->
   ch <> 3%nat -> ch <> 4%nat ->
   rgba2rgb rgba (R, G, B) s
   = Raised (AssertionError "RGBA image has 4 channels.") s).
Proof.
  cbn zeta. unfold rgba2rgb, default_background.
  destruct (shape3 rgba) as [[row col] ch]. cbn [snd].
  assert (Hcomp : forall R' G' B', transparent rgba ->
            is_uint8 R' -> is_uint8 G' -> is_uint8 B' ->
            map2d (fun px => [composite_sample (nth 0 px 0) (nth 3 px 0) R';
                              composite_sample (nth 1 px 0) (nth 3 px 0) G';
                              composite_sample (nth 2 px 0) (nth 3 px 0) B']) rgba
            = map2d (fun _ => [R'; G'; B']) rgba).
  { intros R' G' B' Ht HR HG HB.
    apply (map2d_ext_Forall (fun px => nth 3 px 0 = 0)); [|exact Ht].
    intros px ->. now rewrite !composite_sample_transparent. }
  repeat split.
  - intros ->. reflexivity.
  - intros -> Hu HR HG HB. cbn. unfold mret, M_ret. eexists. split; [reflexivity|].
    apply (Forall2_map2d (Forall is_uint8)); [|exact Hu].
    intros px Hpx. eexists _, _, _. split; [reflexivity|].
    repeat split; apply composite_sample_blends; auto using nth_uint8.
  - intros -> Ht HR HG HB. cbn. unfold mret, M_ret. f_equal. now apply Hcomp.
  - intros -> Ht. cbn. unfold mret, M_ret. f_equal.
    apply Hcomp; [exact Ht| | |]; unfold is_uint8; lia.
  - intros _ _ H3 H4. apply Nat.eqb_neq in H3, H4. now rewrite H3, H4.
Qed.

Lemma unsharp_mask_range_witness :
  uint8_image Scenario.image0 /\
  uint8_image (unsharp_mask Scenario.GaussianBlur Scenario.image0 (5, 5)%nat 5 5 100).
Proof.
  assert (H : uint8_image Scenario.image0)
    by (repeat (constructor; try (unfold is_uint8; lia))).
  split; [exact H|].
  exact (proj1 (unsharp_mask_range Scenario.GaussianBlur Scenario.image0
                  (5, 5)%nat 5 5 100 H)).
Defined.

Lemma rgba2rgb_spec_witness :
  rgba2rgb Scenario.clear_rgba default_background tt
  = Returned [ [ [255; 255; 255]; [255; 255; 255] ] ] tt.
Proof.
  refine (proj1 (proj2 (proj2 (proj2
    (rgba2rgb_spec Scenario.clear_rgba 255 255 255 tt)))) _ _).
  - reflexivity.
  - repeat constructor.
Defined.

(** ** [find_cells] *)

Section RegistryFacts.
Variable predict : Image -> list Z -> Q -> list Prediction.
Variable names : Z -> option string.
Variable cv2_resize : Plane Q -> nat * nat -> Plane Q.

Lemma append_cell_inv (mask_cls : Plane Q * Z) (d d' : Detector) :
  append_cell cv2_resize mask_cls d = Returned tt d' ->
  exists cell, cell_from cv2_resize (image d) cell mask_cls /\
    d' = set_cells (fun cs => cs ++ [cell]) d.
Proof.
  destruct mask_cls as [m cls]. unfold append_cell.
  unfold mbind at 1, M_bind at 1, gets at 1.
  unfold mbind at 1, M_bind at 1, masked_where.
  fold (built_area cv2_resize (image d) m).
  destruct (decide _) as [Hs|Hs]; [|discriminate].
  unfold mret at 1, M_ret at 1.
  unfold mbind at 1, M_bind at 1, CellType_of_value.
  destruct (cls =? 0) eqn:E0; [|destruct (cls =? 1) eqn:E1]; try discriminate;
    unfold mret at 1, M_ret at 1, modify; intros [= <-];
    eexists; (split; [|reflexivity]); unfold cell_from; cbn;
    (split; [|split; split]); try reflexivity; try discriminate; lia.
Qed.

Lemma for_each_append_cell (mcs : list (Plane Q * Z)) :
  forall d d' : Detector,
  for_each mcs (append_cell cv2_resize) d = Returned tt d' ->
  exists new,
    Forall2 (cell_from cv2_resize (image d)) new mcs /\
    d' = set_cells (fun cs => cs ++ new) d.
Proof.
  induction mcs as [|mc mcs IH]; intros d d'; cbn [for_each].
  - intros [= <-]. exists []. split; [constructor|].
    destruct d; unfold set_cells; cbn. now rewrite app_nil_r.
  - unfold mbind at 1, M_bind at 1.
    destruct (append_cell cv2_resize mc d) as [[] d1|] eqn:E; [|discriminate].
    apply append_cell_inv in E as (cell & Hcell & ->).
    intros H. apply IH in H as (new & Hnew & ->).
    exists (cell :: new). split; [now constructor|].
    unfold set_cells; cbn. now rewrite <- app_assoc.
Qed.

Lemma for_each_append_cells (predictions : list Prediction) :
  forall d d' : Detector,
  for_each predictions (append_cells cv2_resize) d = Returned tt d' ->
  exists new,
    Forall2 (cell_from cv2_resize (image d)) new (detections predictions) /\
    d' = set_cells (fun cs => cs ++ new) d /\
    Forall (fun p => masks p <> None) predictions.
Proof.
  induction predictions as [|p ps IH]; intros d d'; cbn [for_each].
  - intros [= <-]. exists []. split; [constructor|]. split; [|constructor].
    destruct d; unfold set_cells; cbn. now rewrite app_nil_r.
  - unfold mbind at 1, M_bind at 1, append_cells at 1.
    destruct (masks p) as [ms|] eqn:Hms; [|discriminate].
    destruct (for_each (zip ms (boxes_cls p)) _ d) as [[] d1|] eqn:E; [|discriminate].
    apply for_each_append_cell in E as (new1 & Hnew1 & ->).
    intros H. apply IH in H as (new2 & Hnew2 & -> & Hall).
    exists (new1 ++ new2). split; [|split].
    + unfold detections. cbn [map concat]. rewrite Hms. cbn [default].
      now apply Forall2_app.
    + unfold set_cells; cbn. now rewrite <- app_assoc.
    + constructor; [congruence | exact Hall].
Qed.

Lemma find_cells_clears (confidence : Q) (d : Detector) :
  find_cells predict names cv2_resize confidence d
  = (for_each (predict (image d) [0; 1] confidence) (append_cells cv2_resize);;
     fold_each (predict (image d) [0; 1] confidence)
       (fun counts r => fold_each (boxes_cls r) (count_class names) counts) (0, 0))
      (clear_cells d).
Proof.
  unfold find_cells. unfold mbind at 1, M_bind at 1, gets at 1.
  unfold mbind at 1, M_bind at 1.
  destruct (decide (cells d = [])) as [H|H].
  - unfold mret at 1, M_ret at 1.
    replace (clear_cells d) with d by (destruct d; cbn in *; now subst).
    reflexivity.
  - reflexivity.
Qed.

(** C9. When [find_cells] returns, the registry holds one cell per detection
    of the current predictions, in order, built from that detection's mask,
    and the cell is EXPLODED exactly when the class id is 0 and WHOLE exactly
    when it is 1. *)
Theorem find_cells_classification (confidence : Q) (d d' : Detector)
    (counts : Z * Z) :
  find_cells predict names cv2_resize confidence d = Returned counts d' ->
  Forall2 (cell_from cv2_resize (image d)) (cells d')
    (detections (predict (image d) [0; 1] confidence)).
Proof.
  rewrite find_cells_clears. unfold mbind at 1, M_bind at 1.
  destruct (for_each _ _ (clear_cells d)) as [[] d1|] eqn:E; [|discriminate].
  apply for_each_append_cells in E as (new & Hnew & -> & _).
  intros H.
  assert (Hst : forall ps (acc : Z * Z) (s s' : Detector) r,
            fold_each ps (fun counts r => fold_each (boxes_cls r)
                                            (count_class names) counts) acc s
            = Returned r s' -> s' = s).
  { assert (Hin : forall cs (acc : Z * Z) (s s' : Detector) r,
              fold_each cs (count_class names) acc s = Returned r s' -> s' = s).
    { induction cs as [|c cs IHc]; intros acc s s' r; cbn [fold_each].
      - now intros [= _ <-].
      - unfold mbind at 1, M_bind at 1, count_class at 1. destruct acc as [ne nw].
        unfold names_getitem. destruct (names c); [|discriminate].
        cbn. apply IHc. }
    induction ps as [|p ps IHp]; intros acc s s' r; cbn [fold_each].
    - now intros [= _ <-].
    - unfold mbind at 1, M_bind at 1.
      destruct (fold_each (boxes_cls p) _ acc s) as [acc' s1|] eqn:E1; [|discriminate].
      apply Hin in E1 as ->. apply IHp. }
  apply Hst in H as ->. exact Hnew.
Qed.

Lemma find_cells_forgets (confidence : Q) (d : Detector) (cs : list Cell) :
  find_cells predict names cv2_resize confidence (set_cells (fun _ => cs) d)
  = find_cells predict names cv2_resize confidence d.
Proof. rewrite !find_cells_clears. reflexivity. Qed.

Lemma find_cells_no_results (confidence : Q) (d : Detector) :
  Forall (fun p => masks p = Some [] /\ boxes_cls p = [])
    (predict (image d) [0; 1] confidence) ->
  find_cells predict names cv2_resize confidence d
  = Returned (0, 0) (clear_cells d).
Proof.
  rewrite find_cells_clears. change (image d) with (image (clear_cells d)).
  generalize (clear_cells d) as s. intros s.
  generalize (predict (image s) [0; 1] confidence) as ps.
  intros ps Hps. unfold mbind at 1, M_bind at 1.
  assert (H1 : for_each ps (append_cells cv2_resize) s = Returned tt s).
  { induction Hps as [|p ps [Hm Hc] _ IH]; [reflexivity|].
    cbn [for_each]. unfold mbind, M_bind, append_cells. rewrite Hm, Hc.
    cbn. exact IH. }
  rewrite H1.
  induction Hps as [|p ps [Hm Hc] _ IH]; [reflexivity|].
  cbn [fold_each]. rewrite Hc. cbn [fold_each].
  unfold mbind at 1, M_bind at 1, mret at 1, M_ret at 1. apply IH.
  clear -H1 Hm Hc. cbn [for_each] in H1. unfold mbind, M_bind, append_cells in H1.
  rewrite Hm, Hc in H1. cbn in H1. exact H1.
Qed.

Lemma find_cells_masks_None (confidence : Q) (d : Detector)
    (p : Prediction) (ps : list Prediction) :
  predict (image d) [0; 1] confidence = p :: ps ->
  masks p = None ->
  find_cells predict names cv2_resize confidence d
  = Raised AttributeError (clear_cells d).
Proof.
  intros Hp Hm. rewrite find_cells_clears, Hp.
  unfold mbind at 1, M_bind at 1. cbn [for_each].
  unfold mbind at 1, M_bind at 1, append_cells. now rewrite Hm.
Qed.
End RegistryFacts.

Lemma find_cells_classification_witness :
  Forall2 (cell_from Scenario.cv2_resize Scenario.image0)
    [Scenario.whole_cell] [(replicate 5 (replicate 5 1%Q), 1)].
Proof.
  exact (find_cells_classification Scenario.predict Scenario.names
           Scenario.cv2_resize (1 # 2) Scenario.fresh Scenario.registered (0, 1)
           eq_refl).
Defined.

(** C5 fails on an image in which the model detects nothing: the registry is
    cleared, then the missing [masks] object makes [find_cells] raise. *)
Theorem find_cells_nothing_detected_raises :
  find_cells Scenario.predict_nothing Scenario.names Scenario.cv2_resize (1 # 2)
    Scenario.registered
  = Raised AttributeError Scenario.fresh.
Proof. reflexivity. Qed.

(** ** [__get_chromosome_candidates] *)

Lemma Forall_imap {A B} (P : A -> Prop) (R : B -> Prop) (f : nat -> A -> B)
    (l : list A) :
  (forall i x, l !! i = Some x -> P x -> R (f i x)) ->
  Forall P l -> Forall R (imap f l).
Proof.
  intros Hf Hl. apply Forall_lookup. intros i y Hy.
  rewrite list_lookup_imap in Hy.
  destruct (l !! i) as [x|] eqn:Hx; [|discriminate]. injection Hy as <-.
  apply (Hf i x Hx). exact (proj1 (Forall_lookup P l) Hl i x Hx).
Qed.

Lemma Forall2d_imap2d {A B} (P : A -> Prop) (R : B -> Prop)
    (f : nat -> nat -> A -> B) (a : Plane A) :
  (forall r c x, P x -> R (f r c x)) ->
  Forall (Forall P) a -> Forall (Forall R) (imap2d f a).
Proof.
  intros Hf. unfold imap2d. apply Forall_imap. intros r row _.
  apply Forall_imap. intros c x _. apply Hf.
Qed.

Lemma omap_None {A B} (f : A -> option B) (l : list A) :
  Forall (fun x => f x = None) l -> omap f l = [].
Proof. induction 1 as [|x l Hx _ IH]; cbn; [reflexivity|]. now rewrite Hx. Qed.

Lemma at2_Forall {A} (P : A -> Prop) (a : Plane A) (r c : Z) (v : A) :
  Forall (Forall P) a -> at2 a r c = Some v -> P v.
Proof.
  intros Ha. unfold at2. destruct (_ && _); [|discriminate].
  destruct (a !! Z.to_nat r) as [row|] eqn:Hr; [|discriminate]. cbn.
  intros Hc. pose proof (proj1 (Forall_lookup _ a) Ha _ _ Hr) as Hrow.
  exact (proj1 (Forall_lookup _ row) Hrow _ _ Hc).
Qed.

Lemma window_Forall (P : Z -> Prop) (kernel : list (Z * Z)) (a : Plane Z) (r c : nat) :
  Forall (Forall P) a -> Forall P (window kernel a r c).
Proof.
  intros Ha. unfold window. induction kernel as [|[dr dc] k IH]; cbn; [constructor|].
  destruct (at2 a _ _) as [v|] eqn:E; [|exact IH].
  constructor; [|exact IH]. exact (at2_Forall P a _ _ v Ha E).
Qed.

Lemma foldr_zero (op : Z -> Z -> Z) (l : list Z) :
  op 0 0 = 0 -> Forall (fun v => v = 0) l -> foldr op 0 l = 0.
Proof. intros Hop. induction 1 as [|x l -> _ IH]; cbn; [reflexivity|]. now rewrite IH. Qed.

Lemma dilate_zero (kernel : list (Z * Z)) (a : Plane Z) :
  zero_plane a -> zero_plane (dilate kernel a).
Proof.
  intros Ha. unfold dilate.
  apply (Forall_imap (Forall (fun v => v = 0))); [|exact Ha]. intros r row _ Hrow.
  apply (Forall_imap (fun v => v = 0)); [|exact Hrow]. intros c v _ ->.
  apply foldr_zero; [reflexivity|]. now apply window_Forall.
Qed.

Lemma erode_zero (kernel : list (Z * Z)) (a : Plane Z) :
  zero_plane a -> zero_plane (erode kernel a).
Proof.
  intros Ha. unfold erode.
  apply (Forall_imap (Forall (fun v => v = 0))); [|exact Ha]. intros r row _ Hrow.
  apply (Forall_imap (fun v => v = 0)); [|exact Hrow]. intros c v _ ->.
  apply foldr_zero; [reflexivity|]. now apply window_Forall.
Qed.

Lemma morphologyEx_gradient_zero (kernel : list (Z * Z)) (a : Plane Z) :
  zero_plane a -> zero_plane (morphologyEx_gradient a kernel).
Proof.
  intros Ha. unfold morphologyEx_gradient.
  apply (Forall_zip_with2 (Forall (fun v => v = 0)) (Forall (fun v => v = 0)));
    [|now apply dilate_zero|now apply erode_zero].
  intros x y. apply Forall_zip_with2. now intros ? ? -> ->.
Qed.

Lemma cv2_threshold_zero (image : Plane Z) (thresh maxval : Z) :
  Forall (Forall (fun v => v <= thresh)) image ->
  zero_plane (cv2_threshold image thresh maxval).
Proof.
  intros H. unfold cv2_threshold, map2d, zero_plane.
  apply Forall_map. eapply Forall_impl; [exact H|]. intros row Hrow. cbn.
  apply Forall_map. eapply Forall_impl; [exact Hrow|]. intros v Hv. cbn.
  destruct (thresh <? v) eqn:E; [|reflexivity]. apply Z.ltb_lt in E. cbn in Hv. lia.
Qed.

Lemma enumerate2d_Forall {A} (P : A -> Prop) (a : Plane A) :
  Forall (Forall P) a -> Forall (fun x => P (snd x)) (enumerate2d a).
Proof.
  intros Ha. unfold enumerate2d. apply Forall_concat.
  apply (Forall_imap (Forall P)); [|exact Ha]. intros r row _ Hrow.
  apply (Forall_imap P); [|exact Hrow]. now intros c v _ Hv.
Qed.

Lemma label_settle_zero (a : Plane Z) (connectivity : nat) (fuel : nat) :
  zero_plane a ->
  forall ids, Forall (Forall (fun i => i = 0%nat)) ids ->
  Forall (Forall (fun i => i = 0%nat)) (label_settle fuel connectivity a 0 ids).
Proof.
  intros Ha. induction fuel as [|fuel IH]; intros ids Hids; cbn [label_settle];
    [exact Hids|].
  destruct (decide _); [exact Hids|]. apply IH.
  apply (Forall2d_imap2d (fun v => v = 0)); [|exact Ha]. now intros r c v ->.
Qed.

Lemma skimage_label_zero (a : Plane Z) (connectivity : nat) :
  zero_plane a -> snd (skimage_label a 0 connectivity) = 0%nat.
Proof.
  intros Ha. unfold skimage_label. cbn [snd].
  set (ids := label_settle _ _ _ _ _).
  assert (Hids : Forall (Forall (fun i => i = 0%nat)) ids).
  { subst ids. apply label_settle_zero; [exact Ha|].
    apply (Forall2d_imap2d (fun v => v = 0)); [|exact Ha]. now intros r c v ->. }
  unfold label_roots. rewrite omap_None; [reflexivity|].
  eapply Forall_impl; [exact (enumerate2d_Forall _ ids Hids)|].
  intros [[r c] i]. cbn. intros ->. unfold raster_id.
  now rewrite decide_False by discriminate.
Qed.

Lemma get_chromosome_candidates_unfold (image : Plane Z) :
  get_chromosome_candidates image
  = let morph := morphologyEx_gradient (cv2_threshold image 100 255) MORPH_RECT_3x3 in
    let labels := fst (skimage_label morph 0 1) in
    let num_labels := snd (skimage_label morph 0 1) in
    map (fun k => centroid labels labels (Z.of_nat k)) (seq 1 num_labels).
Proof.
  unfold get_chromosome_candidates, center_of_mass, range_1.
  destruct (skimage_label _ 0 1) as [labels n]. cbn. now rewrite map_map.
Qed.

Lemma Qred_inject_Z (z : Z) : Qred (inject_Z z) = inject_Z z.
Proof.
  unfold Qred, inject_Z.
  pose proof (Z.ggcd_gcd z 1) as Hg. pose proof (Z.ggcd_correct_divisors z 1) as Hd.
  destruct (Z.ggcd z 1) as [g [aa bb]]. cbn in *.
  rewrite Z.gcd_1_r in Hg. subst g. destruct Hd as [-> Hb].
  assert (bb = 1) by lia. subst bb. f_equal. lia.
Qed.

Lemma region_single (input : Plane Z) (above below : Plane Z) (left right : list Z)
    (k : Z) :
  Forall (Forall (fun v => v <> k)) above -> Forall (fun v => v <> k) left ->
  Forall (fun v => v <> k) right -> Forall (Forall (fun v => v <> k)) below ->
  region input (above ++ (left ++ k :: right) :: below) k
  = [(length above, length left,
      default 0 (at2 input (Z.of_nat (length above)) (Z.of_nat (length left))))].
Proof.
  intros Ha Hl Hr Hb. unfold region, enumerate2d.
  rewrite imap_app, imap_cons, concat_app, concat_cons, !omap_app.
  rewrite imap_app, imap_cons, !omap_app. cbn [omap list_omap].
  rewrite Z.eqb_refl, !Nat.add_0_r.
  assert (Hnone : forall x : nat * nat * Z,
            snd x <> k ->
            (let '(r, c, l) := x in
             if l =? k then Some (r, c, default 0 (at2 input (Z.of_nat r) (Z.of_nat c)))
             else None) = None).
  { intros [[r c] l]. cbn. intros Hne. apply Z.eqb_neq in Hne. now rewrite Hne. }
  rewrite (omap_None _ (concat (imap _ above))), (omap_None _ (imap _ left)),
    (omap_None _ (imap _ right)), (omap_None _ (concat (imap _ below))).
  - reflexivity.
  - apply Forall_concat. apply (Forall_imap (Forall (fun v => v <> k))); [|exact Hb].
    intros r row _ Hrow. apply (Forall_imap (fun v => v <> k)); [|exact Hrow].
    intros c v _ Hv. exact (Hnone (_, _, v) Hv).
  - apply (Forall_imap (fun v => v <> k)); [|exact Hr].
    intros c v _ Hv. exact (Hnone (_, _, v) Hv).
  - apply (Forall_imap (fun v => v <> k)); [|exact Hl].
    intros c v _ Hv. exact (Hnone (_, _, v) Hv).
  - apply Forall_concat. apply (Forall_imap (Forall (fun v => v <> k))); [|exact Ha].
    intros r row _ Hrow. apply (Forall_imap (fun v => v <> k)); [|exact Hrow].
    intros c v _ Hv. exact (Hnone (_, _, v) Hv).
Qed.

Lemma at2_middle {A} (above below : Plane A) (left right : list A) (x : A) :
  at2 (above ++ (left ++ x :: right) :: below)
      (Z.of_nat (length above)) (Z.of_nat (length left)) = Some x.
Proof.
  unfold at2. rewrite !Nat2Z.id.
  replace (_ && _) with true by (symmetry; apply andb_true_iff; split; apply Z.leb_le; lia).
  unfold Plane in *. rewrite list_lookup_middle by reflexivity. cbn.
  now rewrite list_lookup_middle by reflexivity.
Qed.

Lemma Qred_single_quotient (k x : Z) :
  k <> 0 ->
  Qred ((inject_Z k * inject_Z x + 0) / (inject_Z k + 0))%Q = inject_Z x.
Proof.
  intros Hk. rewrite <- (Qred_inject_Z x) at 2. apply Qred_complete.
  assert (Hk' : ~ (inject_Z k == 0)%Q) by (unfold Qeq, inject_Z; cbn; lia).
  field. intros H. apply Hk'. rewrite <- H. ring.
Qed.

Lemma centroid_single (above below : Plane Z) (left right : list Z) (k : Z) :
  k <> 0 ->
  Forall (Forall (fun v => v <> k)) above -> Forall (fun v => v <> k) left ->
  Forall (fun v => v <> k) right -> Forall (Forall (fun v => v <> k)) below ->
  let labels := above ++ (left ++ k :: right) :: below in
  centroid labels labels k
  = [inject_Z (Z.of_nat (length above)); inject_Z (Z.of_nat (length left))].
Proof.
  intros Hk Ha Hl Hr Hb labels. unfold centroid. subst labels.
  rewrite region_single by assumption. rewrite at2_middle. cbn [default map Qsum foldr].
  now rewrite !Qred_single_quotient by assumption.
Qed.

(** *** Labelling *)

Lemma at2_pixel {A} (a : Plane A) (r c : nat) :
  at2 a (Z.of_nat r) (Z.of_nat c) = pixel a (r, c).
Proof.
  unfold at2, pixel. rewrite !Nat2Z.id.
  replace (_ && _) with true; [reflexivity|].
  symmetry. apply andb_true_iff. split; apply Z.leb_le; lia.
Qed.

Lemma at2_Some_pixel {A} (a : Plane A) (r c : Z) (x : A) :
  at2 a r c = Some x ->
  exists q : nat * nat, Z.of_nat q.1 = r /\ Z.of_nat q.2 = c /\ pixel a q = Some x.
Proof.
  unfold at2. destruct (_ && _) eqn:E; [|discriminate].
  apply andb_true_iff in E as [Hr Hc]. apply Z.leb_le in Hr, Hc.
  intros H. exists (Z.to_nat r, Z.to_nat c). cbn.
  rewrite !Z2Nat.id by assumption. auto.
Qed.

Lemma pixel_imap2d {A B} (f : nat -> nat -> A -> B) (a : Plane A) (p : nat * nat) :
  pixel (imap2d f a) p = f p.1 p.2 <$> pixel a p.
Proof.
  unfold pixel, imap2d, Plane in *. rewrite list_lookup_imap.
  destruct (a !! p.1) as [row|]; [|reflexivity]. cbn.
  now rewrite list_lookup_imap.
Qed.

Lemma pixel_map2d {A B} (f : A -> B) (a : Plane A) (p : nat * nat) :
  pixel (map2d f a) p = f <$> pixel a p.
Proof.
  unfold pixel, map2d, Plane in *. rewrite list_lookup_fmap.
  destruct (a !! p.1) as [row|]; [|reflexivity]. cbn.
  now rewrite list_lookup_fmap.
Qed.

Lemma foldr_min_le_init (x : nat) (l : list nat) : (foldr Nat.min x l <= x)%nat.
Proof. induction l as [|y l IH]; cbn; lia. Qed.

Lemma foldr_min_le_elem (x y : nat) (l : list nat) :
  y ∈ l -> (foldr Nat.min x l <= y)%nat.
Proof.
  induction l as [|z l IH]; intros Hy; [now apply elem_of_nil in Hy|].
  apply elem_of_cons in Hy as [->|Hy]; cbn; [lia|]. specialize (IH Hy). lia.
Qed.

Lemma foldr_min_in (x : nat) (l : list nat) :
  foldr Nat.min x l = x \/ foldr Nat.min x l ∈ l.
Proof.
  induction l as [|y l IH]; cbn; [now left|].
  destruct (Nat.min_spec y (foldr Nat.min x l)) as [[_ ->]|[_ ->]].
  - right. apply elem_of_cons. now left.
  - destruct IH as [IH|IH]; [now left|]. right. apply elem_of_cons. now right.
Qed.

Lemma imap_Forall2 {A B C} (R : B -> C -> Prop) (l : list A) :
  forall (f : nat -> A -> B) (g : nat -> A -> C),
  (forall i x, l !! i = Some x -> R (f i x) (g i x)) ->
  Forall2 R (imap f l) (imap g l).
Proof.
  induction l as [|x l IH]; intros f g H; [constructor|].
  rewrite !imap_cons. constructor; [exact (H 0%nat x eq_refl)|].
  apply IH. intros i y Hy. exact (H (S i) y Hy).
Qed.

Lemma imap2d_Forall2 {A B C} (R : B -> C -> Prop) (a : Plane A)
    (f : nat -> nat -> A -> B) (g : nat -> nat -> A -> C) :
  (forall p x, pixel a p = Some x -> R (f p.1 p.2 x) (g p.1 p.2 x)) ->
  Forall2 (Forall2 R) (imap2d f a) (imap2d g a).
Proof.
  intros H. unfold imap2d. apply imap_Forall2. intros r row Hrow.
  apply imap_Forall2. intros c x Hx. apply (H (r, c)).
  unfold pixel. cbn. unfold Plane in *. now rewrite Hrow.
Qed.

Lemma sum_list_le (l' l : list nat) :
  Forall2 le l' l ->
  (sum_list l' <= sum_list l)%nat /\ (sum_list l' = sum_list l -> l' = l).
Proof.
  induction 1 as [|x y l' l Hxy _ [IH1 IH2]]; cbn; [auto|].
  split; [lia|]. intros H. assert (x = y) by lia. subst.
  f_equal. apply IH2. lia.
Qed.

Lemma ids_total_le (L' L : Plane nat) :
  Forall2 (Forall2 le) L' L ->
  (ids_total L' <= ids_total L)%nat /\ (ids_total L' = ids_total L -> L' = L).
Proof.
  unfold ids_total.
  induction 1 as [|x y L' L Hxy _ [IH1 IH2]]; cbn; [auto|].
  destruct (sum_list_le x y Hxy) as [H1 H2].
  split; [lia|]. intros H. assert (x = y) by (apply H2; lia). subst.
  f_equal. apply IH2. lia.
Qed.

Section LabelFacts.
Variable a : Plane Z.
Variable background : Z.
Variable connectivity : nat.

Local Abbreviation W := (length (hd [] a)).
Local Abbreviation adj := (adjacent a background connectivity).
Local Abbreviation conn := (connected a background connectivity).
Local Abbreviation step := (label_step connectivity a background).

Lemma elem_of_neighbour_ids (ids : Plane nat) (p : nat * nat) (v : Z) (i : nat) :
  i ∈ neighbour_ids connectivity a ids p.1 p.2 v <->
  exists q, steps_to connectivity p q /\ pixel a q = Some v /\ pixel ids q = Some i.
Proof.
  unfold neighbour_ids. rewrite list_elem_of_omap. split.
  - intros ([dr dc] & Hin & H).
    destruct (at2 a _ _) as [v'|] eqn:Ea; [|discriminate].
    destruct (at2 ids _ _) as [i'|] eqn:Ei; [|discriminate].
    destruct (v' =? v) eqn:Ev; [|discriminate]. injection H as ->.
    apply Z.eqb_eq in Ev as ->.
    apply at2_Some_pixel in Ea as (q & Hq1 & Hq2 & Hq).
    apply at2_Some_pixel in Ei as (q' & Hq1' & Hq2' & Hq').
    assert (q' = q) as -> by (destruct q, q'; cbn in *; f_equal; lia).
    exists q. split; [|auto]. exists dr, dc. auto.
  - intros (q & (dr & dc & Hin & H1 & H2) & Ha & Hi).
    exists (dr, dc). split; [exact Hin|]. cbn.
    rewrite <- H1, <- H2, !at2_pixel. destruct q as [qr qc]. cbn in *.
    rewrite Ha, Hi. now rewrite Z.eqb_refl.
Qed.

Lemma pixel_step (ids : Plane nat) (p : nat * nat) :
  pixel (step ids) p
  = (fun v => if v =? background then 0%nat
              else foldr Nat.min (default 0%nat (pixel ids p))
                     (neighbour_ids connectivity a ids p.1 p.2 v)) <$> pixel a p.
Proof.
  unfold label_step. rewrite pixel_imap2d. destruct p as [r c]. cbn [fst snd].
  now rewrite at2_pixel.
Qed.

Lemma steps_to_sym (p q : nat * nat) :
  steps_to connectivity p q -> steps_to connectivity q p.
Proof.
  intros (dr & dc & Hin & H1 & H2). exists (- dr), (- dc).
  split; [|lia]. unfold neighbours in *.
  destruct connectivity as [|[|k]];
    repeat (apply elem_of_cons in Hin as [[= -> ->]|Hin];
            [cbn; repeat (first [apply list_elem_of_here | apply list_elem_of_further])|]);
    now apply elem_of_nil in Hin.
Qed.

Lemma adjacent_sym (p q : nat * nat) : adj p q -> adj q p.
Proof.
  intros (v & Hp & Hq & Hv & Hs). exists v. repeat split; try assumption.
  now apply steps_to_sym.
Qed.

Lemma connected_sym (p q : nat * nat) : conn p q -> conn q p.
Proof.
  induction 1 as [|p q r Hpq _ IH]; [apply rtc_refl|].
  eapply rtc_r; [exact IH|]. now apply adjacent_sym.
Qed.

Lemma settled_by_init :
  settled_by a background connectivity (label_init a background).
Proof.
  unfold label_init. split; [eauto|]. split.
  - intros p v Hp ->. rewrite pixel_imap2d, Hp. cbn. now rewrite Z.eqb_refl.
  - intros p v Hp Hv. exists p. split; [apply rtc_refl|].
    rewrite pixel_imap2d, Hp. cbn. apply Z.eqb_neq in Hv. now rewrite Hv.
Qed.

Lemma settled_by_step (ids : Plane nat) :
  settled_by a background connectivity ids ->
  settled_by a background connectivity (step ids).
Proof.
  intros (_ & Hbg & Hfg). split; [unfold label_step; eauto|]. split.
  - intros p v Hp ->. rewrite pixel_step, Hp. cbn. now rewrite Z.eqb_refl.
  - intros p v Hp Hv. rewrite pixel_step, Hp. cbn.
    assert (Hv' := Hv). apply Z.eqb_neq in Hv'. rewrite Hv'.
    destruct (Hfg p v Hp Hv) as (q0 & Hq0 & Hid0). rewrite Hid0. cbn [default from_option]. unfold id.
    destruct (foldr_min_in (pixel_id W q0)
                (neighbour_ids connectivity a ids p.1 p.2 v)) as [->|Hin].
    + exists q0. auto.
    + apply elem_of_neighbour_ids in Hin as (p' & Hs & Hp' & Hid').
      destruct (Hfg p' v Hp' Hv) as (q' & Hq' & Hid'').
      exists q'. split; [|congruence].
      eapply rtc_l; [|exact Hq']. exists v. auto.
Qed.

Lemma step_le (ids : Plane nat) :
  (exists f, ids = imap2d f a) -> Forall2 (Forall2 le) (step ids) ids.
Proof.
  intros [f ->]. unfold label_step. apply imap2d_Forall2. intros p v Hp.
  destruct (v =? background); [lia|].
  rewrite at2_pixel, pixel_imap2d.
  replace (pixel a (p.1, p.2)) with (pixel a p) by now destruct p.
  rewrite Hp. cbn. apply foldr_min_le_init.
Qed.

Lemma label_settle_fixpoint (fuel : nat) :
  forall ids, settled_by a background connectivity ids ->
  (ids_total ids < fuel)%nat ->
  settled_by a background connectivity
    (label_settle fuel connectivity a background ids) /\
  step (label_settle fuel connectivity a background ids)
  = label_settle fuel connectivity a background ids.
Proof.
  induction fuel as [|fuel IH]; intros ids Hinv Hfuel; [lia|].
  cbn [label_settle]. destruct (decide (step ids = ids)) as [Heq|Hne]; [auto|].
  apply IH; [now apply settled_by_step|].
  destruct (ids_total_le (step ids) ids (step_le ids (proj1 Hinv))) as [Hle Heq].
  destruct (Nat.eq_dec (ids_total (step ids)) (ids_total ids)) as [E|E];
    [now apply Heq in E | lia].
Qed.


Lemma fixpoint_adjacent (ids : Plane nat) (p q : nat * nat) :
  settled_by a background connectivity ids -> step ids = ids -> adj p q ->
  pixel ids p = pixel ids q.
Proof.
  intros (_ & _ & Hfg) Hfix.
  assert (Hle : forall p q i j, adj p q -> pixel ids p = Some i ->
                  pixel ids q = Some j -> (i <= j)%nat).
  { clear p q. intros p q i j (v & Hp & Hq & Hv & Hs) Hi Hj.
    pose proof (pixel_step ids p) as H. rewrite Hfix, Hi, Hp in H. cbn in H.
    apply Z.eqb_neq in Hv. rewrite Hv in H. injection H as H. rewrite H.
    apply foldr_min_le_elem. apply elem_of_neighbour_ids. eauto. }
  intros Hadj. assert (Hadj' := Hadj).
  destruct Hadj' as (v & Hp & Hq & Hv & Hs).
  destruct (Hfg p v Hp Hv) as (? & _ & Hi). destruct (Hfg q v Hq Hv) as (? & _ & Hj).
  pose proof (Hle p q _ _ Hadj Hi Hj).
  pose proof (Hle q p _ _ (adjacent_sym _ _ Hadj) Hj Hi).
  rewrite Hi, Hj. f_equal. lia.
Qed.

Lemma fixpoint_connected (ids : Plane nat) (p q : nat * nat) :
  settled_by a background connectivity ids -> step ids = ids -> conn p q ->
  pixel ids p = pixel ids q.
Proof.
  intros Hinv Hfix. induction 1 as [|p q r Hpq _ IH]; [reflexivity|].
  rewrite <- IH. now apply fixpoint_adjacent.
Qed.

Lemma connected_pixel (p q : nat * nat) (v : Z) :
  conn p q -> pixel a p = Some v -> pixel a q = Some v.
Proof.
  induction 1 as [|p q r (w & Hp & Hq & _) _ IH]; [auto|].
  intros Hv. apply IH. congruence.
Qed.
End LabelFacts.

Lemma elem_of_enumerate2d {A} (x : Plane A) (r c : nat) (v : A) :
  (r, c, v) ∈ enumerate2d x <-> pixel x (r, c) = Some v.
Proof.
  unfold enumerate2d, pixel. cbn [fst snd]. rewrite list_elem_of_In, in_concat.
  split.
  - intros (l & Hl & Hin). apply list_elem_of_In, elem_of_lookup_imap in Hl
      as (r' & row & -> & Hrow).
    apply list_elem_of_In, elem_of_lookup_imap in Hin as (c' & v' & [= -> -> ->] & Hv).
    unfold Plane in *. now rewrite Hrow.
  - unfold Plane in *. destruct (x !! r) as [row|] eqn:Hrow; [|discriminate]. cbn.
    intros Hv. exists (imap (fun c v => (r, c, v)) row). split.
    + apply list_elem_of_In.
      now apply (elem_of_lookup_imap_2
                   (fun r row => imap (fun c v => (r, c, v)) row) x row r).
    + apply list_elem_of_In.
      now apply (elem_of_lookup_imap_2 (fun c v => (r, c, v)) row v c).
Qed.

Lemma elem_of_label_roots (w : nat) (ids : Plane nat) (i : nat) :
  i ∈ label_roots w ids <-> exists q, pixel ids q = Some i /\ i = pixel_id w q.
Proof.
  unfold label_roots. rewrite list_elem_of_omap. split.
  - intros ([[r c] j] & Hin & H). destruct (decide _) as [->|]; [|discriminate].
    injection H as <-. exists (r, c). split; [|reflexivity].
    now apply elem_of_enumerate2d.
  - intros ([r c] & Hq & ->). exists (r, c, pixel_id w (r, c)).
    split; [now apply elem_of_enumerate2d|]. unfold pixel_id. cbn.
    now rewrite decide_True.
Qed.

Lemma pixel_lt_width {A} (x : Plane A) (p : nat * nat) :
  rectangular x -> is_Some (pixel x p) -> (p.2 < length (hd [] x))%nat.
Proof.
  intros Hrect [v Hv]. unfold pixel, Plane in *.
  destruct (x !! p.1) as [row|] eqn:Hrow; [|discriminate]. cbn in Hv.
  pose proof (proj1 (Forall_lookup _ x) Hrect _ _ Hrow) as Hlen. cbn in Hlen.
  apply lookup_lt_Some in Hv. lia.
Qed.

Lemma pixel_id_inj {A} (x : Plane A) (p q : nat * nat) :
  rectangular x -> is_Some (pixel x p) -> is_Some (pixel x q) ->
  pixel_id (length (hd [] x)) p = pixel_id (length (hd [] x)) q -> p = q.
Proof.
  intros Hrect Hp Hq. apply (pixel_lt_width x p Hrect) in Hp.
  apply (pixel_lt_width x q Hrect) in Hq.
  unfold pixel_id, raster_id. destruct p as [r c], q as [r' c']. cbn in *.
  intros [= H]. assert (r = r') by nia. subst. f_equal. nia.
Qed.

Lemma raster_row_seq {A} (w r : nat) (row : list A) :
  forall c0 : nat,
  map (fun x : nat * nat * A => raster_id w x.1.1 x.1.2)
      (imap (fun c v => (r, (c0 + c)%nat, v)) row)
  = seq (S (r * w + c0)) (length row).
Proof.
  induction row as [|v row IH]; intros c0; [reflexivity|].
  rewrite imap_cons. cbn [map length seq fst snd]. unfold raster_id at 1.
  rewrite Nat.add_0_r. f_equal.
  rewrite (imap_ext _ (fun c v => (r, (S c0 + c)%nat, v)))
    by (intros; cbn; f_equal; f_equal; lia).
  rewrite IH. f_equal. lia.
Qed.

Lemma raster_rows_seq {A} (w : nat) (x : Plane A) :
  Forall (fun row => length row = w) x ->
  forall r0 : nat,
  map (fun x : nat * nat * A => raster_id w x.1.1 x.1.2)
      (concat (imap (fun r row => imap (fun c v => ((r0 + r)%nat, c, v)) row) x))
  = seq (S (r0 * w)) (length x * w).
Proof.
  induction 1 as [|row x Hrow _ IH]; intros r0; [reflexivity|].
  rewrite imap_cons, concat_cons, map_app.
  rewrite (imap_ext _ (fun c v => ((r0 + 0)%nat, (0 + c)%nat, v))) by reflexivity.
  rewrite raster_row_seq, Hrow.
  rewrite (imap_ext _ (fun r row => imap (fun c v => ((S r0 + r)%nat, c, v)) row)).
  - rewrite IH. cbn [length].
    replace (S (length x) * w)%nat with (w + length x * w)%nat by lia.
    rewrite seq_app. f_equal; f_equal; lia.
  - intros r row' _. cbn. apply imap_ext. intros c v _. f_equal. f_equal. lia.
Qed.

Lemma omap_sublist {A B} (g : A -> option B) (h : A -> B) (l : list A) :
  (forall x y, g x = Some y -> y = h x) -> omap g l `sublist_of` map h l.
Proof.
  intros Hgh. induction l as [|x l IH]; cbn; [constructor|].
  destruct (g x) as [y|] eqn:E.
  - rewrite (Hgh x y E). now apply sublist_skip.
  - now apply sublist_cons.
Qed.

Lemma NoDup_label_roots (w : nat) (ids : Plane nat) :
  Forall (fun row => length row = w) ids -> NoDup (label_roots w ids).
Proof.
  intros Hrect. unfold label_roots.
  eapply sublist_NoDup;
    [|apply (omap_sublist _ (fun x : nat * nat * nat => raster_id w x.1.1 x.1.2))].
  - unfold enumerate2d.
    rewrite (imap_ext _ (fun r row => imap (fun c v => ((0 + r)%nat, c, v)) row))
      by reflexivity.
    rewrite (raster_rows_seq w ids Hrect 0). apply NoDup_seq.
  - intros [[r c] i] y. cbn. destruct (decide _); [|discriminate]. congruence.
Qed.

Lemma imap2d_widths {A B} (f : nat -> nat -> A -> B) (a : Plane A) (w : nat) :
  Forall (fun row => length row = w) a ->
  Forall (fun row => length row = w) (imap2d f a).
Proof.
  intros H. unfold imap2d. apply (Forall_imap (fun row => length row = w)); [|exact H].
  intros r row _ Hrow. now rewrite length_imap.
Qed.

Section LabelTheorem.
Variable a : Plane Z.
Variable background : Z.
Variable connectivity : nat.
Hypothesis Hrect : rectangular a.

Local Abbreviation W := (length (hd [] a)).
Local Abbreviation conn := (connected a background connectivity).

(** The labels are the regions: 0 exactly on the background, equal exactly
    on connected pixels, and every label from 1 to the count is used. *)
Lemma skimage_label_components :
  let labels := fst (skimage_label a background connectivity) in
  let num_labels := snd (skimage_label a background connectivity) in
  (forall p v, pixel a p = Some v ->
     exists l, pixel labels p = Some l /\ 0 <= l <= Z.of_nat num_labels /\
       (l = 0 <-> v = background)) /\
  (forall p q v w, pixel a p = Some v -> pixel a q = Some w ->
     v <> background -> w <> background ->
     (pixel labels p = pixel labels q <-> conn p q)) /\
  (forall k, (1 <= k <= num_labels)%nat ->
     exists p v, pixel a p = Some v /\ v <> background /\
       pixel labels p = Some (Z.of_nat k)).
Proof.
  unfold skimage_label. cbn [fst snd].
  set (ids := label_settle _ _ _ _ _).
  set (roots := label_roots W ids).
  destruct (label_settle_fixpoint a background connectivity
              (S (ids_total (label_init a background))) (label_init a background)
              (settled_by_init a background connectivity) ltac:(lia))
    as [Hinv Hfix].
  fold ids in Hinv, Hfix. destruct Hinv as (Hshape & Hbg & Hfg).
  assert (Hinv : settled_by a background connectivity ids) by (split; auto).
  assert (Hnodup : NoDup roots).
  { subst roots. apply NoDup_label_roots. destruct Hshape as [f ->].
    now apply imap2d_widths. }
  assert (Hroots : forall i, i ∈ roots <->
            exists q, pixel ids q = Some i /\ i = pixel_id W q)
    by (intros i; apply elem_of_label_roots).
  clearbody roots ids.
  (* a foreground pixel carries the identifier of a root of its region *)
  assert (Hroot : forall p v, pixel a p = Some v -> v <> background ->
            exists q n, conn p q /\ pixel ids p = Some (pixel_id W q) /\
              pixel ids q = Some (pixel_id W q) /\
              roots !! n = Some (pixel_id W q) /\
              label_of roots (pixel_id W q) = Z.of_nat (S n)).
  { intros p v Hp Hv. destruct (Hfg p v Hp Hv) as (q & Hq & Hid).
    assert (Hidq : pixel ids q = Some (pixel_id W q))
      by (rewrite <- Hid; symmetry;
          now apply (fixpoint_connected a background connectivity)).
    assert (Hin : pixel_id W q ∈ roots) by (apply Hroots; eauto).
    destruct (list_find_elem_of (fun x => x = pixel_id W q) roots _ Hin eq_refl)
      as [[n x] Hfind].
    pose proof Hfind as Hfind'. apply list_find_Some in Hfind' as (Hn & -> & _).
    exists q, n. repeat split; try assumption.
    unfold label_of. rewrite decide_False by (unfold pixel_id, raster_id; lia).
    now rewrite Hfind. }
  split; [|split].
  - intros p v Hp. rewrite pixel_map2d.
    destruct (decide (v = background)) as [->|Hv].
    + rewrite (Hbg p _ Hp eq_refl). exists 0. cbn. split; [reflexivity|].
      split; [lia|tauto].
    + destruct (Hroot p v Hp Hv) as (q & n & _ & Hid & _ & Hn & Hlab).
      rewrite Hid. cbn -[label_of pixel_id]. rewrite Hlab. eexists. split; [reflexivity|].
      apply lookup_lt_Some in Hn. split; [lia|]. split; [lia|tauto].
  - intros p q v w Hp Hq Hv Hw. rewrite !pixel_map2d.
    destruct (Hroot p v Hp Hv) as (p' & n & Hpp' & Hidp & _ & Hn & Hlabp).
    destruct (Hroot q w Hq Hw) as (q' & m & Hqq' & Hidq & _ & Hm & Hlabq).
    rewrite Hidp, Hidq. cbn -[label_of pixel_id]. rewrite Hlabp, Hlabq. split.
    + intros [= Hnm]. assert (n = m) by lia. subst m.
      assert (Heq : pixel_id W p' = pixel_id W q') by congruence.
      apply (pixel_id_inj a) in Heq; [subst q'| assumption | |].
      * transitivity p'; [exact Hpp'|]. now apply connected_sym.
      * exists v. now apply (connected_pixel a background connectivity p).
      * exists w. now apply (connected_pixel a background connectivity q).
    + intros Hc.
      pose proof (fixpoint_connected a background connectivity ids p q Hinv Hfix Hc)
        as Hpq.
      rewrite Hidp, Hidq in Hpq.
      assert (Heq : pixel_id W p' = pixel_id W q') by congruence.
      rewrite Heq in Hn.
      now rewrite (NoDup_lookup roots _ _ _ Hnodup Hn Hm).
  - intros k [Hk1 Hk2]. destruct (lookup_lt_is_Some_2 roots (k - 1)) as [i Hi];
      [lia|].
    assert (Hin : i ∈ roots) by (apply list_elem_of_lookup; eauto).
    apply Hroots in Hin as (q & Hidq & ->).
    destruct Hshape as [f Hf]. pose proof Hidq as Hq. rewrite Hf, pixel_imap2d in Hq.
    destruct (pixel a q) as [v|] eqn:Hv; [|discriminate].
    assert (Hvb : v <> background).
    { intros ->. rewrite (Hbg q _ Hv eq_refl) in Hidq.
      unfold pixel_id, raster_id in Hidq. discriminate. }
    exists q, v. repeat split; try assumption. rewrite pixel_map2d.
    destruct (Hroot q v Hv Hvb) as (q' & n & _ & Hid & _ & Hn & Hlab).
    rewrite Hid. cbn -[label_of pixel_id]. rewrite Hlab. f_equal.
    assert (Heq : pixel_id W q' = pixel_id W q) by congruence.
    rewrite Heq in Hn.
    pose proof (NoDup_lookup roots _ _ _ Hnodup Hn Hi). lia.
Qed.
End LabelTheorem.

Lemma widths_rectangular {A} (x : Plane A) (w : nat) :
  Forall (fun row => length row = w) x -> rectangular x.
Proof.
  intros H. unfold rectangular. destruct H as [|row x Hrow Hx]; [constructor|].
  cbn [hd]. constructor; [reflexivity|].
  eapply Forall_impl; [exact Hx|]. cbn. congruence.
Qed.

Lemma map2d_widths {A B} (f : A -> B) (a : Plane A) (w : nat) :
  Forall (fun row => length row = w) a ->
  Forall (fun row => length row = w) (map2d f a).
Proof.
  intros H. unfold map2d. apply Forall_map.
  eapply Forall_impl; [exact H|]. intros row Hrow. cbn. now rewrite length_map.
Qed.

Lemma zip_with2d_widths {A B C} (f : A -> B -> C) (x : Plane A) (y : Plane B)
    (w : nat) :
  Forall (fun row => length row = w) x -> Forall (fun row => length row = w) y ->
  Forall (fun row => length row = w) (zip_with (zip_with f) x y).
Proof.
  apply Forall_zip_with2. intros rx ry Hx Hy.
  rewrite length_zip_with. lia.
Qed.

Lemma morphologyEx_gradient_widths (a : Plane Z) (kernel : list (Z * Z)) (w : nat) :
  Forall (fun row => length row = w) a ->
  Forall (fun row => length row = w) (morphologyEx_gradient a kernel).
Proof.
  intros H. unfold morphologyEx_gradient, dilate, erode.
  apply zip_with2d_widths; now apply imap2d_widths.
Qed.

Lemma pixel_zip_with2d {A B C} (f : A -> B -> C) (x : Plane A) (y : Plane B)
    (p : nat * nat) (u : A) (v : B) :
  pixel x p = Some u -> pixel y p = Some v ->
  pixel (zip_with (zip_with f) x y) p = Some (f u v).
Proof.
  unfold pixel, Plane in *. rewrite lookup_zip_with.
  destruct (x !! p.1) as [rx|]; [|discriminate].
  destruct (y !! p.1) as [ry|]; [|discriminate]. cbn.
  intros Hu Hv. now rewrite lookup_zip_with, Hu, Hv.
Qed.

Lemma pixel_morphologyEx_gradient (a : Plane Z) (kernel : list (Z * Z))
    (p : nat * nat) (v : Z) :
  pixel a p = Some v ->
  pixel (morphologyEx_gradient a kernel) p
  = Some (Z.max 0 (foldr Z.max v (window kernel a p.1 p.2)
                   - foldr Z.min v (window kernel a p.1 p.2))).
Proof.
  intros Hv. unfold morphologyEx_gradient.
  apply (pixel_zip_with2d (fun d e => Z.max 0 (d - e)));
    unfold dilate, erode; now rewrite pixel_imap2d, Hv.
Qed.

Lemma rectangular_morph (image : Plane Z) :
  rectangular image ->
  rectangular (morphologyEx_gradient (cv2_threshold image 100 255) MORPH_RECT_3x3).
Proof.
  intros H. eapply widths_rectangular, morphologyEx_gradient_widths.
  unfold cv2_threshold. apply map2d_widths. exact H.
Qed.

(** *** The gradient marks the rim of the bright pixels *)

Lemma elem_of_MORPH_RECT_3x3 (dr dc : Z) :
  (dr, dc) ∈ MORPH_RECT_3x3 <-> -1 <= dr <= 1 /\ -1 <= dc <= 1.
Proof.
  unfold MORPH_RECT_3x3. rewrite !elem_of_cons, elem_of_nil. split.
  - intros H. repeat destruct H as [H|H]; try (injection H as -> ->); try lia.
  - intros [Hr Hc].
    assert (Hr' : dr = -1 \/ dr = 0 \/ dr = 1) by lia.
    assert (Hc' : dc = -1 \/ dc = 0 \/ dc = 1) by lia.
    destruct Hr' as [-> | [-> | ->]], Hc' as [-> | [-> | ->]]; tauto.
Qed.

Lemma elem_of_window_3x3 {a : Plane Z} (p : nat * nat) (x : Z) :
  x ∈ window MORPH_RECT_3x3 a p.1 p.2 <->
  exists q, beside p q /\ pixel a q = Some x.
Proof.
  unfold window. rewrite list_elem_of_omap. split.
  - intros ([dr dc] & Hin & Hat). apply elem_of_MORPH_RECT_3x3 in Hin.
    apply at2_Some_pixel in Hat as (q & Hq1 & Hq2 & Hq).
    exists q. split; [unfold beside; lia | exact Hq].
  - intros (q & Hb & Hq).
    exists (Z.of_nat q.1 - Z.of_nat p.1, Z.of_nat q.2 - Z.of_nat p.2).
    split; [apply elem_of_MORPH_RECT_3x3; unfold beside in Hb; lia|].
    replace (Z.of_nat p.1 + (Z.of_nat q.1 - Z.of_nat p.1)) with (Z.of_nat q.1) by lia.
    replace (Z.of_nat p.2 + (Z.of_nat q.2 - Z.of_nat p.2)) with (Z.of_nat q.2) by lia.
    rewrite at2_pixel. now destruct q.
Qed.

Lemma foldr_max_binary (t : Z) (l : list Z) :
  Forall (fun x => x = 0 \/ x = 255) (t :: l) ->
  foldr Z.max t l = if decide (255 ∈ t :: l) then 255 else 0.
Proof.
  intros H. inversion H as [|? ? Ht Hl]; subst. clear H.
  induction Hl as [|x l Hx _ IH]; cbn [foldr].
  - destruct (decide (255 ∈ [t])) as [Hin|Hin].
    + apply list_elem_of_singleton in Hin. now subst.
    + destruct Ht as [-> | ->]; [reflexivity|]. destruct Hin. now left.
  - rewrite IH. repeat case_decide; rewrite ?elem_of_cons in *;
      destruct Hx as [-> | ->]; try lia; exfalso; intuition congruence.
Qed.

Lemma foldr_min_binary (t : Z) (l : list Z) :
  Forall (fun x => x = 0 \/ x = 255) (t :: l) ->
  foldr Z.min t l = if decide (0 ∈ t :: l) then 0 else 255.
Proof.
  intros H. inversion H as [|? ? Ht Hl]; subst. clear H.
  induction Hl as [|x l Hx _ IH]; cbn [foldr].
  - destruct (decide (0 ∈ [t])) as [Hin|Hin].
    + apply list_elem_of_singleton in Hin. now subst.
    + destruct Ht as [-> | ->]; [|reflexivity]. destruct Hin. now left.
  - rewrite IH. repeat case_decide; rewrite ?elem_of_cons in *;
      destruct Hx as [-> | ->]; try lia; exfalso; intuition congruence.
Qed.

Lemma pixel_cv2_threshold (image : Plane Z) (thresh maxval : Z) (p : nat * nat) :
  pixel (cv2_threshold image thresh maxval) p
  = (fun v => if thresh <? v then maxval else 0) <$> pixel image p.
Proof. unfold cv2_threshold. apply pixel_map2d. Qed.

Lemma pixel_zip_with2d_inv {A B C} (f : A -> B -> C) (x : Plane A) (y : Plane B)
    (p : nat * nat) (w : C) :
  pixel (zip_with (zip_with f) x y) p = Some w ->
  exists u v, pixel x p = Some u /\ pixel y p = Some v.
Proof.
  unfold pixel. unfold Plane in *. rewrite lookup_zip_with.
  destruct (x !! p.1) as [rx|]; [|discriminate].
  destruct (y !! p.1) as [ry|]; [|discriminate]. cbn.
  rewrite lookup_zip_with.
  destruct (rx !! p.2) as [u|]; [|discriminate].
  destruct (ry !! p.2) as [v|]; [|discriminate]. eauto.
Qed.

Lemma pixel_morph_defined (a : Plane Z) (kernel : list (Z * Z)) (p : nat * nat)
    (w : Z) :
  pixel (morphologyEx_gradient a kernel) p = Some w -> is_Some (pixel a p).
Proof.
  unfold morphologyEx_gradient. intros H.
  apply pixel_zip_with2d_inv in H as (u & _ & Hu & _).
  unfold dilate in Hu. rewrite pixel_imap2d in Hu.
  destruct (pixel a p); [eauto | discriminate].
Qed.

Section Rim.
Variable image : Plane Z.

Local Abbreviation thresh := (cv2_threshold image 100 255).
Local Abbreviation morph := (morphologyEx_gradient thresh MORPH_RECT_3x3).

Lemma thresh_binary : Forall (Forall (fun x => x = 0 \/ x = 255)) thresh.
Proof.
  unfold cv2_threshold, map2d. apply Forall_map, Forall_forall. intros row _.
  apply Forall_map, Forall_forall. intros v _. cbn. destruct (100 <? v); auto.
Qed.

Lemma bright_in_window (p : nat * nat) :
  255 ∈ window MORPH_RECT_3x3 thresh p.1 p.2 <->
  exists q v, beside p q /\ pixel image q = Some v /\ 100 < v.
Proof.
  rewrite elem_of_window_3x3. split.
  - intros (q & Hb & Hq). rewrite pixel_cv2_threshold in Hq.
    destruct (pixel image q) as [v|] eqn:Hv; [|discriminate]. cbn in Hq.
    destruct (100 <? v) eqn:E; [|discriminate]. apply Z.ltb_lt in E.
    exists q, v. auto.
  - intros (q & v & Hb & Hq & Hv). exists q. split; [exact Hb|].
    rewrite pixel_cv2_threshold, Hq. cbn. apply Z.ltb_lt in Hv. now rewrite Hv.
Qed.

Lemma dark_in_window (p : nat * nat) :
  0 ∈ window MORPH_RECT_3x3 thresh p.1 p.2 <->
  exists q v, beside p q /\ pixel image q = Some v /\ v <= 100.
Proof.
  rewrite elem_of_window_3x3. split.
  - intros (q & Hb & Hq). rewrite pixel_cv2_threshold in Hq.
    destruct (pixel image q) as [v|] eqn:Hv; [|discriminate]. cbn in Hq.
    destruct (100 <? v) eqn:E; [discriminate|]. apply Z.ltb_ge in E.
    exists q, v. auto.
  - intros (q & v & Hb & Hq & Hv). exists q. split; [exact Hb|].
    rewrite pixel_cv2_threshold, Hq. cbn. apply Z.ltb_ge in Hv. now rewrite Hv.
Qed.

Lemma beside_refl (p : nat * nat) : beside p p.
Proof. unfold beside. lia. Qed.

(** The gradient is 255 on the rim and 0 elsewhere. *)
Lemma pixel_morph_rim (p : nat * nat) (v : Z) :
  pixel image p = Some v ->
  (on_boundary image p /\ pixel morph p = Some 255) \/
  (~ on_boundary image p /\ pixel morph p = Some 0).
Proof.
  intros Hv.
  assert (Ht : pixel thresh p = Some (if 100 <? v then 255 else 0))
    by now rewrite pixel_cv2_threshold, Hv.
  rewrite (pixel_morphologyEx_gradient _ _ _ _ Ht).
  set (t := if 100 <? v then 255 else 0) in *.
  assert (Hin : t ∈ window MORPH_RECT_3x3 thresh p.1 p.2)
    by (apply elem_of_window_3x3; exists p; split; [apply beside_refl|exact Ht]).
  assert (Hbin : Forall (fun x => x = 0 \/ x = 255)
                   (t :: window MORPH_RECT_3x3 thresh p.1 p.2)).
  { constructor; [subst t; destruct (100 <? v); auto|].
    apply window_Forall, thresh_binary. }
  rewrite (foldr_max_binary _ _ Hbin), (foldr_min_binary _ _ Hbin).
  assert (H255 : 255 ∈ t :: window MORPH_RECT_3x3 thresh p.1 p.2 <->
                 exists q v, beside p q /\ pixel image q = Some v /\ 100 < v).
  { rewrite <- bright_in_window, elem_of_cons. split; [|auto].
    intros [<- | H]; assumption. }
  assert (H0 : 0 ∈ t :: window MORPH_RECT_3x3 thresh p.1 p.2 <->
               exists q v, beside p q /\ pixel image q = Some v /\ v <= 100).
  { rewrite <- dark_in_window, elem_of_cons. split; [|auto].
    intros [<- | H]; assumption. }
  unfold on_boundary.
  destruct (decide (255 ∈ _)) as [Hb|Hb], (decide (0 ∈ _)) as [Hd|Hd].
  - left. split; [|reflexivity]. rewrite Hv.
    split; [eauto|]. split; [now apply H255|now apply H0].
  - right. split; [|reflexivity]. intros (_ & _ & Hdk). apply Hd, H0, Hdk.
  - right. split; [|reflexivity]. intros (_ & Hbr & _). apply Hb, H255, Hbr.
  - right. split; [|reflexivity]. intros (_ & Hbr & _). apply Hb, H255, Hbr.
Qed.

Lemma morph_foreground (p : nat * nat) (v : Z) :
  pixel morph p = Some v -> v <> 0 -> on_boundary image p /\ v = 255.
Proof.
  intros Hp Hne. destruct (pixel_morph_defined _ _ _ _ Hp) as [t Ht].
  rewrite pixel_cv2_threshold in Ht.
  destruct (pixel image p) as [x|] eqn:Hx; [|discriminate].
  destruct (pixel_morph_rim p x Hx) as [[Hon H]|[_ H]]; rewrite H in Hp;
    injection Hp as <-; [auto | congruence].
Qed.

Lemma morph_on_boundary (p : nat * nat) :
  on_boundary image p -> pixel morph p = Some 255.
Proof.
  intros Hon. pose proof Hon as [[v Hv] _].
  destruct (pixel_morph_rim p v Hv) as [[_ H]|[Hn _]]; [exact H | contradiction].
Qed.

Lemma steps_to_touching (p q : nat * nat) : steps_to 1 p q <-> touching p q.
Proof.
  unfold steps_to, touching, neighbours. split.
  - intros (dr & dc & Hin & Hr & Hc).
    rewrite !elem_of_cons, elem_of_nil in Hin.
    repeat destruct Hin as [Hin|Hin]; try (injection Hin as -> ->); try lia.
  - intros H.
    exists (Z.of_nat q.1 - Z.of_nat p.1), (Z.of_nat q.2 - Z.of_nat p.2).
    split; [|lia]. rewrite !elem_of_cons, elem_of_nil.
    destruct H as [[E [H|H]]|[E [H|H]]].
    + right. left. f_equal; lia.
    + right. right. left. f_equal; lia.
    + left. f_equal; lia.
    + right. right. right. left. f_equal; lia.
Qed.

Lemma adjacent_linked (p q : nat * nat) :
  adjacent morph 0 1 p q <-> linked image p q.
Proof.
  unfold adjacent, linked. split.
  - intros (v & Hp & Hq & Hv & Hs).
    destruct (morph_foreground p v Hp Hv) as [Hop _].
    destruct (morph_foreground q v Hq Hv) as [Hoq _].
    split; [exact Hop|]. split; [exact Hoq|]. now apply steps_to_touching.
  - intros (Hop & Hoq & Ht). exists 255.
    split; [now apply morph_on_boundary|]. split; [now apply morph_on_boundary|].
    split; [discriminate|]. now apply steps_to_touching.
Qed.

Lemma connected_same_blob (p q : nat * nat) :
  connected morph 0 1 p q <-> same_blob image p q.
Proof.
  unfold connected, same_blob. split; apply rtc_subrel; intros x y;
    apply adjacent_linked.
Qed.
End Rim.

(** *** The order of the labels *)

Lemma StronglySorted_sublist {A} (R : A -> A -> Prop) (l1 l2 : list A) :
  l1 `sublist_of` l2 -> StronglySorted R l2 -> StronglySorted R l1.
Proof.
  induction 1 as [|x l1 l2 Hsub IH|x l1 l2 Hsub IH]; intros Hs.
  - constructor.
  - inversion Hs as [|? ? Hs' Hall]; subst. constructor; [now apply IH|].
    rewrite Forall_forall in Hall |- *. intros y Hy. apply Hall.
    eapply elem_of_sublist; eassumption.
  - inversion Hs; subst. now apply IH.
Qed.

Lemma StronglySorted_seq (a n : nat) : StronglySorted lt (seq a n).
Proof.
  revert a. induction n as [|n IH]; intros a; cbn; constructor; [apply IH|].
  apply Forall_forall. intros x Hx. apply list_elem_of_In, in_seq in Hx. lia.
Qed.

Lemma StronglySorted_lookup {A} (R : A -> A -> Prop) (l : list A) :
  StronglySorted R l ->
  forall i j x y, (i < j)%nat -> l !! i = Some x -> l !! j = Some y -> R x y.
Proof.
  induction 1 as [|z l Hs IH Hall]; intros i j x y Hij Hi Hj; [discriminate|].
  destruct j as [|j]; [lia|]. cbn in Hj. destruct i as [|i].
  - injection Hi as <-. rewrite Forall_forall in Hall. apply Hall.
    eapply list_elem_of_lookup_2. exact Hj.
  - cbn in Hi. apply (IH i j); [lia | assumption | assumption].
Qed.

Lemma label_roots_sorted (w : nat) (ids : Plane nat) :
  Forall (fun row => length row = w) ids -> StronglySorted lt (label_roots w ids).
Proof.
  intros Hrect. unfold label_roots.
  eapply StronglySorted_sublist;
    [apply (omap_sublist _ (fun x : nat * nat * nat => raster_id w x.1.1 x.1.2))|].
  - intros [[r c] i] y. cbn. destruct (decide _); [|discriminate]. congruence.
  - unfold enumerate2d.
    rewrite (imap_ext _ (fun r row => imap (fun c v => ((0 + r)%nat, c, v)) row))
      by reflexivity.
    rewrite (raster_rows_seq w ids Hrect 0). apply StronglySorted_seq.
Qed.

Lemma pixel_Forall2 {A B} (R : A -> B -> Prop) (x : Plane A) (y : Plane B)
    (p : nat * nat) (u : A) :
  Forall2 (Forall2 R) x y -> pixel x p = Some u ->
  exists v, pixel y p = Some v /\ R u v.
Proof.
  unfold pixel, Plane in *. intros H Hu.
  destruct (x !! p.1) as [rx|] eqn:Hrx; [|discriminate]. cbn in Hu.
  destruct (Forall2_lookup_l _ _ _ _ _ H Hrx) as (ry & Hry & Hrow).
  rewrite Hry. cbn.
  destruct (Forall2_lookup_l _ _ _ _ _ Hrow Hu) as (v & Hv & Huv). eauto.
Qed.

Lemma Forall2_le_refl (x : Plane nat) : Forall2 (Forall2 le) x x.
Proof.
  induction x as [|row x IH]; constructor; [|exact IH].
  induction row; constructor; auto.
Qed.

Lemma Forall2_le_trans (x y z : Plane nat) :
  Forall2 (Forall2 le) x y -> Forall2 (Forall2 le) y z -> Forall2 (Forall2 le) x z.
Proof.
  intros H. revert z. induction H as [|rx ry x y Hr _ IH]; intros z Hz;
    inversion Hz as [|? rz ? z' Hr' Hz']; subst; constructor; [|now apply IH].
  clear -Hr Hr'. revert rz Hr'. induction Hr as [|a b rx ry Hab _ IH]; intros rz Hr';
    inversion Hr'; subst; constructor; [lia | now apply IH].
Qed.

Section LabelOrder.
Variable a : Plane Z.
Variable background : Z.
Variable connectivity : nat.
Hypothesis Hrect : rectangular a.

Local Abbreviation W := (length (hd [] a)).

Lemma label_settle_le (fuel : nat) :
  forall ids, (exists f, ids = imap2d f a) ->
  Forall2 (Forall2 le) (label_settle fuel connectivity a background ids) ids.
Proof.
  induction fuel as [|fuel IH]; intros ids Hshape; cbn [label_settle];
    [apply Forall2_le_refl|].
  destruct (decide _); [apply Forall2_le_refl|].
  eapply Forall2_le_trans; [apply IH|now apply step_le].
  unfold label_step. eauto.
Qed.

Lemma pixel_label_init_le (p : nat * nat) (i : nat) :
  pixel (label_init a background) p = Some i -> (i <= pixel_id W p)%nat.
Proof.
  unfold label_init. rewrite pixel_imap2d.
  destruct (pixel a p) as [v|]; [|discriminate]. cbn.
  destruct (v =? background); intros [= <-]; unfold pixel_id; lia.
Qed.

(** The labels have the shape of the array, and they are numbered in the
    order in which their regions are met when the array is read row by row:
    a region with a smaller label has a pixel before every pixel of a region
    with a larger label. *)
Lemma skimage_label_order :
  let labels := fst (skimage_label a background connectivity) in
  let num_labels := snd (skimage_label a background connectivity) in
  (forall p l, pixel labels p = Some l -> is_Some (pixel a p)) /\
  (forall j k, (1 <= j)%nat -> (j < k)%nat -> (k <= num_labels)%nat ->
     exists p, pixel labels p = Some (Z.of_nat j) /\
       forall q, pixel labels q = Some (Z.of_nat k) ->
         (pixel_id W p < pixel_id W q)%nat).
Proof.
  unfold skimage_label. cbn [fst snd].
  set (ids := label_settle _ _ _ _ _).
  set (roots := label_roots W ids).
  destruct (label_settle_fixpoint a background connectivity
              (S (ids_total (label_init a background))) (label_init a background)
              (settled_by_init a background connectivity) ltac:(lia))
    as [Hinv Hfix].
  fold ids in Hinv, Hfix. destruct Hinv as (Hshape & Hbg & Hfg).
  assert (Hle : forall p i, pixel ids p = Some i -> (i <= pixel_id W p)%nat).
  { intros p i Hi.
    destruct (pixel_Forall2 le ids (label_init a background) p i) as (j & Hj & Hij);
      [|exact Hi|].
    - subst ids. apply label_settle_le.
      destruct (settled_by_init a background connectivity) as [H _]. exact H.
    - apply pixel_label_init_le in Hj. lia. }
  assert (Hwidths : Forall (fun row => length row = W) ids).
  { destruct Hshape as [f ->]. now apply imap2d_widths. }
  assert (Hnodup : NoDup roots) by (subst roots; now apply NoDup_label_roots).
  assert (Hsorted : StronglySorted lt roots)
    by (subst roots; now apply label_roots_sorted).
  assert (Hroots : forall i, i ∈ roots <->
            exists q, pixel ids q = Some i /\ i = pixel_id W q)
    by (intros i; apply elem_of_label_roots).
  assert (Hlab : forall (i n : nat), roots !! n = Some i -> i <> 0%nat ->
            label_of roots i = Z.of_nat (S n)).
  { intros i n Hn Hi. unfold label_of. rewrite decide_False by exact Hi.
    assert (Hin : i ∈ roots) by (eapply list_elem_of_lookup_2; exact Hn).
    destruct (list_find_elem_of (fun x => x = i) roots _ Hin eq_refl)
      as [[m x] Hfind].
    rewrite Hfind. pose proof Hfind as Hfind'.
    apply list_find_Some in Hfind' as (Hm & -> & _).
    now rewrite (NoDup_lookup roots _ _ _ Hnodup Hm Hn). }
  assert (Hlab_inv : forall (i k : nat), (1 <= k)%nat ->
            label_of roots i = Z.of_nat k -> roots !! (k - 1)%nat = Some i).
  { intros i k Hk. unfold label_of. destruct (decide (i = 0%nat)); [lia|].
    destruct (list_find _ roots) as [[m x]|] eqn:Hfind; [|lia].
    apply list_find_Some in Hfind as (Hm & -> & _).
    intros H. replace (k - 1)%nat with m by lia. exact Hm. }
  clearbody roots ids.
  split.
  - intros p l. rewrite pixel_map2d. destruct Hshape as [f ->].
    rewrite pixel_imap2d. destruct (pixel a p); [eauto | discriminate].
  - intros j k Hj Hjk Hk.
    destruct (lookup_lt_is_Some_2 roots (j - 1)) as [ij Hij]; [lia|].
    destruct (lookup_lt_is_Some_2 roots (k - 1)) as [ik Hik]; [lia|].
    assert (Hlt : (ij < ik)%nat)
      by (apply (StronglySorted_lookup lt roots Hsorted (j - 1) (k - 1)); auto; lia).
    assert (Hin : ij ∈ roots) by (eapply list_elem_of_lookup_2; exact Hij).
    apply Hroots in Hin as (p & Hp & Hijp).
    exists p. split.
    + rewrite pixel_map2d, Hp. cbn -[label_of]. f_equal.
      rewrite (Hlab ij (j - 1)%nat Hij); [lia|].
      subst ij. unfold pixel_id, raster_id. lia.
    + intros q. rewrite pixel_map2d.
      destruct (pixel ids q) as [i|] eqn:Hq; [|discriminate]. cbn -[label_of].
      intros [= Hi]. apply Hlab_inv in Hi; [|lia].
      rewrite Hik in Hi. injection Hi as <-.
      pose proof (Hle q ik Hq). lia.
Qed.
End LabelOrder.

(** *** Blobs and their mean points *)

Lemma elem_of_blob_of (labels : Plane Z) (k : Z) (p : nat * nat) :
  p ∈ blob_of labels k <-> pixel labels p = Some k.
Proof.
  unfold blob_of. rewrite list_elem_of_omap. split.
  - intros ([[r c] l] & Hin & Hf). apply elem_of_enumerate2d in Hin.
    destruct (l =? k) eqn:E; [|discriminate]. injection Hf as <-.
    apply Z.eqb_eq in E. now subst.
  - intros Hp. exists (p.1, p.2, k). split.
    + apply elem_of_enumerate2d. now destruct p.
    + rewrite Z.eqb_refl. now destruct p.
Qed.

Lemma NoDup_blob_of (labels : Plane Z) (k : Z) (w : nat) :
  Forall (fun row => length row = w) labels -> NoDup (blob_of labels k).
Proof.
  intros Hw. unfold blob_of.
  eapply sublist_NoDup;
    [|apply (omap_sublist _ (fun x : nat * nat * Z => (x.1.1, x.1.2)))].
  - apply (NoDup_fmap_1 (fun p : nat * nat => raster_id w p.1 p.2)).
    rewrite <- list_fmap_compose. unfold enumerate2d.
    rewrite (imap_ext _ (fun r row => imap (fun c v => ((0 + r)%nat, c, v)) row))
      by reflexivity.
    change (fmap _ ?l) with
      (map (fun x : nat * nat * Z => raster_id w x.1.1 x.1.2) l).
    rewrite (raster_rows_seq w labels Hw 0). apply NoDup_seq.
  - intros [[r c] l] y. cbn. destruct (l =? k); [|discriminate]. congruence.
Qed.

Lemma omap_fmap_ext {A B C} (f : A -> option C) (f' : A -> option B)
    (g : B -> C) (l : list A) :
  Forall (fun x => f x = g <$> f' x) l -> omap f l = map g (omap f' l).
Proof.
  induction 1 as [|x l Hx _ IH]; [reflexivity|]. cbn. rewrite Hx.
  destruct (f' x); cbn; now rewrite IH.
Qed.

Lemma region_blob (labels : Plane Z) (k : Z) :
  region labels labels k
  = map (fun p : nat * nat => (p.1, p.2, k)) (blob_of labels k).
Proof.
  unfold region, blob_of. apply omap_fmap_ext, Forall_forall.
  intros [[r c] l] Hin. apply elem_of_enumerate2d in Hin.
  destruct (l =? k) eqn:E; [|reflexivity]. apply Z.eqb_eq in E. subst l.
  rewrite at2_pixel, Hin. reflexivity.
Qed.

Lemma Qsum_weighted (k : Z) (f : nat * nat -> nat) (ps : list (nat * nat)) :
  (Qsum (map (fun p => inject_Z k * inject_Z (Z.of_nat (f p))) ps)
   == inject_Z k * Qsum (map (fun p => inject_Z (Z.of_nat (f p))) ps))%Q.
Proof.
  induction ps as [|p ps IH]; unfold Qsum in *; cbn [map foldr]; [ring|].
  rewrite IH. ring.
Qed.

Lemma Qsum_constant (k : Z) (ps : list (nat * nat)) :
  (Qsum (map (fun _ => inject_Z k) ps)
   == inject_Z k * inject_Z (Z.of_nat (length ps)))%Q.
Proof.
  induction ps as [|p ps IH]; unfold Qsum in *; cbn [map foldr length];
    [change (inject_Z (Z.of_nat 0)) with 0%Q; ring|].
  rewrite IH, Nat2Z.inj_succ. unfold Z.succ. rewrite inject_Z_plus.
  change (inject_Z 1) with 1%Q. ring.
Qed.

Lemma Qdiv_cancel (k s n : Q) : ~ (k == 0)%Q -> ((k * s) / (k * n) == s / n)%Q.
Proof.
  intros Hk. unfold Qdiv. rewrite Qinv_mult_distr.
  setoid_replace (k * s * (/ k * / n))%Q with ((k * / k) * (s * / n))%Q
    using relation Qeq by ring.
  rewrite Qmult_inv_r by exact Hk. ring.
Qed.

(** The centre of mass of a region weighted by its own label is the mean
    position of its pixels. *)
Lemma centroid_mean_point (labels : Plane Z) (k : Z) :
  k <> 0 -> centroid labels labels k = mean_point (blob_of labels k).
Proof.
  intros Hk. unfold centroid, mean_point. rewrite region_blob.
  set (blob := blob_of labels k).
  rewrite !map_map. cbn [fst snd].
  assert (Hk' : ~ (inject_Z k == 0)%Q).
  { intros H. apply Hk. unfold Qeq in H. cbn in H. lia. }
  f_equal; [|f_equal]; apply Qred_complete.
  - rewrite (Qsum_weighted k fst), (Qsum_constant k). now apply Qdiv_cancel.
  - rewrite (Qsum_weighted k snd), (Qsum_constant k). now apply Qdiv_cancel.
Qed.

Lemma mean_point_single (p : nat * nat) :
  mean_point [p] = [inject_Z (Z.of_nat p.1); inject_Z (Z.of_nat p.2)].
Proof.
  unfold mean_point. cbn [map length Qsum foldr].
  assert (E : forall z, Qred ((inject_Z z + 0) / inject_Z (Z.of_nat 1))%Q
                        = inject_Z z).
  { intros z. rewrite <- (Qred_inject_Z z) at 2. apply Qred_complete.
    change (inject_Z (Z.of_nat 1)) with 1%Q. field. }
  now rewrite !E.
Qed.

Lemma pixel_id_raster_lt (w : nat) (p q : nat * nat) :
  (p.2 < w)%nat -> (q.2 < w)%nat ->
  (pixel_id w p < pixel_id w q)%nat -> raster_lt p q.
Proof. unfold pixel_id, raster_id, raster_lt. intros Hp Hq H. nia. Qed.

(** *** The extractor *)

Lemma skimage_label_widths (a : Plane Z) (background : Z) (connectivity w : nat) :
  Forall (fun row => length row = w) a ->
  Forall (fun row => length row = w) (fst (skimage_label a background connectivity)).
Proof.
  intros Ha. unfold skimage_label. cbn [fst]. apply map2d_widths.
  destruct (label_settle_fixpoint a background connectivity
              (S (ids_total (label_init a background))) (label_init a background)
              (settled_by_init a background connectivity) ltac:(lia))
    as [([f ->] & _) _].
  now apply imap2d_widths.
Qed.

Lemma singleton_list {A} (l : list A) (x : A) :
  NoDup l -> (forall y, y ∈ l <-> y = x) -> l = [x].
Proof.
  intros Hnd H. destruct l as [|y l].
  - pose proof (proj2 (H x) eq_refl) as Hx. now apply elem_of_nil in Hx.
  - assert (y = x) as -> by (apply H; left).
    destruct l as [|z l]; [reflexivity|].
    assert (z = x) as -> by (apply H; right; left).
    apply NoDup_cons in Hnd as [Hnd _]. exfalso. apply Hnd. left.
Qed.

Lemma center_of_mass_single (labels : Plane Z) (k : Z) (p : nat * nat) :
  rectangular labels -> k <> 0 ->
  (forall q, pixel labels q = Some k <-> q = p) ->
  center_of_mass labels labels [k]
  = [[inject_Z (Z.of_nat p.1); inject_Z (Z.of_nat p.2)]].
Proof.
  intros Hrect Hk Hp. unfold center_of_mass. cbn [map].
  rewrite centroid_mean_point by exact Hk.
  rewrite (singleton_list (blob_of labels k) p).
  - now rewrite mean_point_single.
  - exact (NoDup_blob_of labels k _ Hrect).
  - intros q. rewrite elem_of_blob_of. apply Hp.
Qed.

Lemma pixel_rectangular {A} (x : Plane A) (p : nat * nat) :
  rectangular x ->
  is_Some (pixel x p) <-> (p.1 < length x)%nat /\ (p.2 < length (hd [] x))%nat.
Proof.
  intros Hrect. unfold pixel, Plane in *. split.
  - intros [v Hv]. destruct (x !! p.1) as [row|] eqn:Hrow; [|discriminate].
    cbn in Hv. pose proof (proj1 (Forall_lookup _ x) Hrect _ _ Hrow) as Hlen.
    cbn in Hlen. apply lookup_lt_Some in Hrow, Hv. lia.
  - intros [Hr Hc]. destruct (lookup_lt_is_Some_2 x p.1 Hr) as [row Hrow].
    rewrite Hrow. cbn. apply lookup_lt_is_Some_2.
    pose proof (proj1 (Forall_lookup _ x) Hrect _ _ Hrow) as Hlen. cbn in Hlen. lia.
Qed.

Lemma differing_neighbour_linked (image : Plane Z) (p e : nat * nat) (vp ve : Z) :
  rectangular image -> pixel image p = Some vp -> pixel image e = Some ve ->
  beside p e -> (100 < vp /\ ve <= 100) \/ (vp <= 100 /\ 100 < ve) ->
  exists q, q <> p /\ linked image p q.
Proof.
  intros Hrect Hp He Hbeside Hdiff.
  assert (Hpe : beside e p) by (unfold beside in *; lia).
  assert (Hpp : beside p p) by (unfold beside; lia).
  assert (Hne : e <> p) by (intros ->; rewrite Hp in He; injection He; lia).
  assert (Hon : forall q, is_Some (pixel image q) -> beside q p -> beside q e ->
                  on_boundary image q).
  { intros q Hq Hqp Hqe. split; [exact Hq|].
    destruct Hdiff as [[Hb Hd]|[Hd Hb]]; split; eauto 6. }
  assert (Honp : on_boundary image p) by (apply Hon; eauto).
  destruct (decide (p.1 = e.1 \/ p.2 = e.2)) as [Hline|Hdiag].
  - exists e. split; [exact Hne|]. split; [exact Honp|]. split.
    + apply Hon; [eauto | exact Hpe | unfold beside; lia].
    + destruct p as [pr pc], e as [er ec]. unfold touching, beside in *. cbn in *.
      assert (pr <> er \/ pc <> ec) by (destruct (decide (pr = er)); [right|left]; congruence).
      lia.
  - exists (e.1, p.2). split; [|split; [exact Honp|split]].
    + destruct p as [pr pc]. cbn in *. intros [= E]. lia.
    + apply Hon.
      * apply (pixel_rectangular image _ Hrect). cbn.
        pose proof (proj1 (pixel_rectangular image p Hrect) (ex_intro _ _ Hp)).
        pose proof (proj1 (pixel_rectangular image e Hrect) (ex_intro _ _ He)). lia.
      * unfold beside in *. cbn. lia.
      * unfold beside in *. cbn. lia.
    + unfold touching, beside in *. cbn. lia.
Qed.

(** A pixel of the boundary has a neighbour (above, below, left or right) on
    the boundary: no blob of the gradient is a single pixel. *)
Lemma on_boundary_touching (image : Plane Z) (p : nat * nat) :
  rectangular image -> on_boundary image p ->
  exists q, q <> p /\ linked image p q.
Proof.
  intros Hrect ([v Hv] & (b & vb & Hb & Hvb & Hbright) & (d & vd & Hd & Hvd & Hdark)).
  destruct (Z_lt_le_dec 100 v) as [Hgt|Hle].
  - apply (differing_neighbour_linked image p d v vd); auto.
  - apply (differing_neighbour_linked image p b v vb); auto.
Qed.

Section Extractor.
Variable image : Plane Z.
Hypothesis Hrect : rectangular image.

Local Abbreviation thresh := (cv2_threshold image 100 255).
Local Abbreviation morph := (morphologyEx_gradient thresh MORPH_RECT_3x3).
Local Abbreviation labels := (fst (skimage_label morph 0 1)).
Local Abbreviation num_labels := (snd (skimage_label morph 0 1)).

Lemma label_blob (p : nat * nat) (k : nat) :
  (1 <= k)%nat -> pixel labels p = Some (Z.of_nat k) ->
  on_boundary image p /\ pixel morph p = Some 255.
Proof.
  intros Hk Hp.
  destruct (skimage_label_components morph 0 1 (rectangular_morph image Hrect))
    as (Hbg & _ & _).
  destruct (skimage_label_order morph 0 1 (rectangular_morph image Hrect))
    as (Hdef & _).
  destruct (Hdef p _ Hp) as [v Hv].
  destruct (Hbg p v Hv) as (l & Hl & _ & Hz).
  assert (v <> 0) as Hne.
  { intros E. apply Hz in E. rewrite Hl in Hp. injection Hp. lia. }
  destruct (morph_foreground image p v Hv Hne) as [Hon ->]. auto.
Qed.

Lemma label_same_blob (p q : nat * nat) (k : nat) :
  (1 <= k)%nat -> pixel labels p = Some (Z.of_nat k) ->
  (pixel labels q = Some (Z.of_nat k) <-> same_blob image p q).
Proof.
  intros Hk Hp.
  destruct (skimage_label_components morph 0 1 (rectangular_morph image Hrect))
    as (_ & Heq & _).
  destruct (label_blob p k Hk Hp) as [_ Hmp].
  rewrite <- connected_same_blob. split.
  - intros Hq. destruct (label_blob q k Hk Hq) as [_ Hmq].
    apply (Heq p q 255 255 Hmp Hmq); congruence.
  - intros Hc.
    pose proof (connected_pixel morph 0 1 p q 255 Hc Hmp) as Hmq.
    rewrite <- Hp. symmetry. apply (Heq p q 255 255 Hmp Hmq); [discriminate..|].
    exact Hc.
Qed.

Lemma boundary_label (p : nat * nat) :
  on_boundary image p ->
  exists k, (1 <= k <= num_labels)%nat /\ pixel labels p = Some (Z.of_nat k).
Proof.
  intros Hon.
  destruct (skimage_label_components morph 0 1 (rectangular_morph image Hrect))
    as (Hbg & _ & _).
  destruct (Hbg p 255 (morph_on_boundary image p Hon)) as (l & Hl & Hr & Hz).
  exists (Z.to_nat l).
  assert (l <> 0) by (intros E; apply Hz in E; discriminate).
  split; [lia|]. rewrite Hl. f_equal. lia.
Qed.

Lemma label_raster_order (j k : nat) :
  (1 <= j)%nat -> (j < k)%nat -> (k <= num_labels)%nat ->
  exists p, pixel labels p = Some (Z.of_nat j) /\
    forall q, pixel labels q = Some (Z.of_nat k) -> raster_lt p q.
Proof.
  intros Hj Hjk Hk.
  destruct (skimage_label_order morph 0 1 (rectangular_morph image Hrect))
    as (Hdef & Hord).
  destruct (Hord j k Hj Hjk Hk) as (p & Hp & Hlt).
  exists p. split; [exact Hp|]. intros q Hq.
  apply (pixel_id_raster_lt (length (hd [] morph))).
  - apply pixel_lt_width; [now apply rectangular_morph | eauto].
  - apply pixel_lt_width; [now apply rectangular_morph | eauto].
  - now apply Hlt.
Qed.

Lemma label_used (k : nat) :
  (1 <= k <= num_labels)%nat -> exists p, pixel labels p = Some (Z.of_nat k).
Proof.
  intros Hk.
  destruct (skimage_label_components morph 0 1 (rectangular_morph image Hrect))
    as (_ & _ & Hused).
  destruct (Hused k Hk) as (p & v & _ & _ & Hp). eauto.
Qed.

Lemma NoDup_label_blob (k : Z) : NoDup (blob_of labels k).
Proof.
  apply (NoDup_blob_of _ _ (length (hd [] image))).
  apply skimage_label_widths, morphologyEx_gradient_widths.
  unfold cv2_threshold. apply map2d_widths. exact Hrect.
Qed.
End Extractor.

Lemma lookup_blobs (labels : Plane Z) (n i : nat) (blob : list (nat * nat)) :
  map (fun k => blob_of labels (Z.of_nat k)) (seq 1 n) !! i = Some blob ->
  (i < n)%nat /\ blob = blob_of labels (Z.of_nat (S i)).
Proof.
  rewrite list_lookup_fmap. intros H.
  destruct (seq 1 n !! i) as [k|] eqn:Hk; [|discriminate].
  apply lookup_seq in Hk as [-> Hi]. cbn in H. injection H as <-. auto.
Qed.

(** C7. On a non-empty single-channel image: thresholding gives 255 where
    the sample is above 100 and 0 elsewhere; the gradient under the 3 x 3
    rectangle is 255 exactly on the pixels whose 3 x 3 square (cut at the
    border of the image) holds a sample above 100 and a sample not above
    100, and 0 elsewhere; the candidates are the mean (row, col) positions
    of the blobs of those pixels, a blob being a largest set of them joined
    by chains of steps up, down, left or right; every blob gives one
    candidate, and the candidates come in the order in which the blobs are
    met when the image is read row by row. A channel with no sample above
    100 gives no candidate, and the centre of mass of a label that lies on a
    single pixel is that pixel's (row, col). *)
Theorem get_chromosome_candidates_spec (image : Plane Z) :
  rectangular image -> (0 < length image)%nat -> (0 < length (hd [] image))%nat ->
  let thresh := cv2_threshold image 100 255 in
  let morph := morphologyEx_gradient thresh MORPH_RECT_3x3 in
  (forall p v, pixel image p = Some v ->
     pixel thresh p = Some (if 100 <? v then 255 else 0)) /\
  (forall p v, pixel image p = Some v ->
     (on_boundary image p /\ pixel morph p = Some 255) \/
     (~ on_boundary image p /\ pixel morph p = Some 0)) /\
  (exists blobs : list (list (nat * nat)),
     get_chromosome_candidates image = map mean_point blobs /\
     (forall i blob, blobs !! i = Some blob ->
        blob <> [] /\ NoDup blob /\
        forall p, p ∈ blob ->
          on_boundary image p /\ forall q, q ∈ blob <-> same_blob image p q) /\
     (forall p, on_boundary image p ->
        exists i blob, blobs !! i = Some blob /\ p ∈ blob) /\
     (forall i j bi bj, (i < j)%nat ->
        blobs !! i = Some bi -> blobs !! j = Some bj ->
        exists p, p ∈ bi /\ forall q, q ∈ bj -> raster_lt p q)) /\
  (Forall (Forall (fun v => v <= 100)) image ->
   get_chromosome_candidates image = []) /\
  (forall (labels : Plane Z) (k : Z) (p : nat * nat),
     rectangular labels -> k <> 0 ->
     (forall q, pixel labels q = Some k <-> q = p) ->
     center_of_mass labels labels [k]
     = [[inject_Z (Z.of_nat p.1); inject_Z (Z.of_nat p.2)]]).
Proof.
  intros Hrect _ _. cbn zeta. repeat apply conj.
  - intros p v Hv. now rewrite pixel_cv2_threshold, Hv.
  - intros p v Hv. exact (pixel_morph_rim image p v Hv).
  - set (morph := morphologyEx_gradient (cv2_threshold image 100 255) MORPH_RECT_3x3).
    set (labels := fst (skimage_label morph 0 1)).
    set (n := snd (skimage_label morph 0 1)).
    exists (map (fun k => blob_of labels (Z.of_nat k)) (seq 1 n)).
    repeat apply conj.
    + rewrite get_chromosome_candidates_unfold. cbn zeta. fold morph labels n.
      rewrite map_map. apply map_ext_in. intros k Hk%in_seq.
      apply centroid_mean_point. lia.
    + intros i blob Hb. apply lookup_blobs in Hb as [Hi ->].
      split; [|split].
      * destruct (label_used image Hrect (S i) ltac:(fold morph n; lia)) as [p Hp].
        fold morph labels in Hp. apply elem_of_blob_of in Hp.
        intros E. rewrite E in Hp. now apply elem_of_nil in Hp.
      * apply NoDup_label_blob, Hrect.
      * intros p Hp. apply elem_of_blob_of in Hp. split.
        -- now apply (label_blob image Hrect p (S i) ltac:(lia)).
        -- intros q. rewrite elem_of_blob_of.
           now apply (label_same_blob image Hrect p q (S i) ltac:(lia)).
    + intros p Hon.
      destruct (boundary_label image Hrect p Hon) as (k & Hk & Hp).
      fold morph labels n in Hk, Hp.
      destruct k as [|k]; [lia|].
      exists k, (blob_of labels (Z.of_nat (S k))). split.
      * rewrite list_lookup_fmap, lookup_seq_lt by lia. reflexivity.
      * now apply elem_of_blob_of.
    + intros i j bi bj Hij Hbi Hbj.
      apply lookup_blobs in Hbi as [Hi ->]. apply lookup_blobs in Hbj as [Hj ->].
      destruct (label_raster_order image Hrect (S i) (S j)) as (p & Hp & Hlt);
        [lia | lia | fold morph n; lia |].
      exists p. split; [now apply elem_of_blob_of|].
      intros q Hq. apply Hlt. now apply elem_of_blob_of in Hq.
  - intros Himg. rewrite get_chromosome_candidates_unfold. cbn zeta.
    rewrite skimage_label_zero; [reflexivity|].
    apply morphologyEx_gradient_zero. now apply cv2_threshold_zero.
  - intros labels k p. apply center_of_mass_single.
Qed.

Lemma get_chromosome_candidates_spec_witness :
  get_chromosome_candidates [[0; 100]; [7; 42]] = [] /\
  center_of_mass [[0; 0; 0]; [0; 0; 1]] [[0; 0; 0]; [0; 0; 1]] [1]
  = [[inject_Z 1; inject_Z 2]] /\
  exists blobs i blob,
    get_chromosome_candidates [[0; 0; 0]; [0; 200; 0]; [0; 0; 0]]
    = map mean_point blobs /\
    blobs !! i = Some blob /\ (1%nat, 1%nat) ∈ blob.
Proof.
  split; [|split].
  - destruct (get_chromosome_candidates_spec [[0; 100]; [7; 42]])
      as (_ & _ & _ & Hnone & _); [repeat constructor | cbn; lia | cbn; lia |].
    apply Hnone. repeat constructor; lia.
  - destruct (get_chromosome_candidates_spec [[0; 100]; [7; 42]])
      as (_ & _ & _ & _ & Hsingle); [repeat constructor | cbn; lia | cbn; lia |].
    apply (Hsingle [[0; 0; 0]; [0; 0; 1]] 1 (1%nat, 2%nat));
      [repeat constructor | lia |].
    intros [r c]. unfold pixel. cbn [fst snd].
    destruct r as [|[|r]]; destruct c as [|[|[|c]]]; cbn;
      split; intros H; try discriminate H; try reflexivity.
  - destruct (get_chromosome_candidates_spec [[0; 0; 0]; [0; 200; 0]; [0; 0; 0]])
      as (_ & _ & (blobs & Hmean & _ & Hall & _) & _);
      [repeat constructor | cbn; lia | cbn; lia |].
    destruct (Hall (1%nat, 1%nat)) as (i & blob & Hi & Hin).
    + split; [now exists 200|]. split.
      * exists (1%nat, 1%nat), 200. unfold beside. cbn. repeat split; lia.
      * exists (0%nat, 0%nat), 0. unfold beside. cbn. repeat split; lia.
    + exists blobs, i, blob. auto.
Defined.
